(** * myfind: one search task per requested file name

    A shallow embedding of [myfind.cpp] (the program the Makefile builds)
    and of the variants kept beside it in the repository.  Strings are
    [string]s of bytes, the two global flags are passed explicitly, the
    directory iterators of [std::filesystem] are functions over a tree of
    nodes, and what a process does to the outside (writes to the two
    streams, semaphore operations, temporary files) is a list of actions
    in program order. *)

From Stdlib Require Import String Ascii List Bool Arith ZArith Lia.
From Stdlib Require Import DecimalString DecimalNat.
Import ListNotations.

Local Open Scope string_scope.
Local Open Scope list_scope.

(** ** Bytes and C strings *)

Module CString.

(** The bytes of a [std::string]. *)
Fixpoint bytes (s : string) : list ascii :=
  match s with
  | EmptyString => []
  | String c r => c :: bytes r
  end.

Definition NUL : ascii := Ascii.zero.

(** [s.c_str()] as a C function reads it: the bytes before the first NUL. *)
Fixpoint c_str (s : string) : list ascii :=
  match s with
  | EmptyString => []
  | String c r => if Ascii.eqb c NUL then [] else c :: c_str r
  end.

(** [tolower] of the C locale on an [unsigned char]: only 'A'..'Z' move. *)
Definition tolower (c : ascii) : ascii :=
  let n := nat_of_ascii c in
  if ((65 <=? n)%nat && (n <=? 90)%nat)%bool then ascii_of_nat (n + 32) else c.

Definition code (c : ascii) : Z := Z.of_nat (nat_of_ascii c).

(** [strcasecmp]: difference of the first pair of folded bytes that differ,
    the terminating NUL counting as byte 0. *)
Fixpoint strcasecmp (a b : list ascii) : Z :=
  match a, b with
  | [], [] => 0
  | [], y :: _ => (0 - code (tolower y))%Z
  | x :: _, [] => code (tolower x)
  | x :: a', y :: b' =>
      if Ascii.eqb (tolower x) (tolower y) then strcasecmp a' b'
      else (code (tolower x) - code (tolower y))%Z
  end.

Definition fold_case (l : list ascii) : list ascii := map tolower l.

End CString.

(** ** Matcher: [isMatchingFilename] (myfind.cpp, lines 28-35) *)

(** The two globals [recursiveSearchEnabled] and [caseInsensetiveSearch],
    set once while the options are parsed and only read afterwards. *)
Record flags : Type := mkFlags {
  recursiveSearchEnabled : bool;
  caseInsensetiveSearch : bool
}.

Definition isMatchingFilename (caseInsensitive : bool) (file1 file2 : string) : bool :=
  if caseInsensitive then
    Z.eqb (CString.strcasecmp (CString.c_str file1) (CString.c_str file2)) 0
  else
    String.eqb file1 file2.

(** ** Paths and their rendering *)

Module Path.

Definition slash : ascii := ascii_of_nat 47.
Definition dquote : ascii := ascii_of_nat 34.
Definition backslash : ascii := ascii_of_nat 92.

Definition is_absolute (p : string) : bool :=
  match p with
  | String c _ => Ascii.eqb c slash
  | EmptyString => false
  end.

Fixpoint ends_with_slash (p : string) : bool :=
  match p with
  | EmptyString => false
  | String c EmptyString => Ascii.eqb c slash
  | String _ r => ends_with_slash r
  end.

(** [p / q] of [std::filesystem::path] on a POSIX system. *)
Definition append (p q : string) : string :=
  if is_absolute q then q
  else match p with
       | EmptyString => q
       | _ => if ends_with_slash p then p ++ q else p ++ String slash q
       end.

(** [fs::absolute(p)] is [current_path() / p]. *)
Definition absolute (cwd p : string) : string := append cwd p.

(** [os << p] for a [path] writes [std::quoted(p.string())]: the text between
    double quotes, a backslash before every double quote and backslash. *)
Fixpoint escape (s : string) : string :=
  match s with
  | EmptyString => EmptyString
  | String c r =>
      if Ascii.eqb c dquote || Ascii.eqb c backslash
      then String backslash (String c (escape r))
      else String c (escape r)
  end.

Definition quoted (s : string) : string :=
  String dquote (escape s ++ String dquote EmptyString).

End Path.

(** [os << getpid()]: the decimal digits of the process id. *)
Definition show_pid (pid : nat) : string :=
  NilEmpty.string_of_uint (Nat.to_uint pid).

Definition newline : string := String (ascii_of_nat 10) EmptyString.

(** ** The directory tree and the two iterators *)

Inductive kind : Type := Regular | Directory | Other.

Definition kind_eqb (a b : kind) : bool :=
  match a, b with
  | Regular, Regular | Directory, Directory | Other, Other => true
  | _, _ => false
  end.

(** What opening a directory gives: its entries, EACCES, or another error
    (carrying the text of [what()]). *)
Inductive access : Type :=
  | Readable
  | Denied
  | Faulty (what : string).

#[warnings="-register-all"]
Inductive node : Type :=
  | File (name : string)
  | Special (name : string)
  | Dir (name : string) (acc : access) (children : list node).

Definition node_name (n : node) : string :=
  match n with
  | File name | Special name | Dir name _ _ => name
  end.

Definition node_kind (n : node) : kind :=
  match n with
  | File _ => Regular
  | Special _ => Other
  | Dir _ _ _ => Directory
  end.

(** A [directory_entry]: [path()], [path().filename()] and the file type. *)
Record entry : Type := mkEntry {
  e_path : string;
  e_name : string;
  e_kind : kind
}.

Definition entry_of (parent : string) (n : node) : entry :=
  mkEntry (Path.append parent (node_name n)) (node_name n) (node_kind n).

(** One step of a range-for over an iterator: the next entry, or the
    exception thrown by the constructor or by the increment.  The loop that
    consumes the items never looks past a [Raise]. *)
Inductive item : Type :=
  | Yield (e : entry)
  | Raise (what : string).

(** Opening [path] as a directory when it names the node [n], under
    [directory_options::skip_permission_denied]. *)
Definition open_dir {A} (n : node) (entries : list node -> list A)
    (fail : string -> list A) : list A :=
  match n with
  | Dir _ Readable children => entries children
  | Dir _ Denied _ => []
  | Dir _ (Faulty what) _ => fail what
  | _ => fail "Not a directory"
  end.

(** [fs::directory_iterator(directory, skip_permission_denied)] *)
Definition directory_iterator (directory : string) (root : node) : list item :=
  open_dir root (map (fun n => Yield (entry_of directory n)))
           (fun what => [Raise what]).

(** An entry, then (for a directory the increment descends into) the
    entries below it, depth first. *)
Fixpoint descend (parent : string) (n : node) : list item :=
  Yield (entry_of parent n) ::
  match n with
  | Dir name Readable children =>
      flat_map (descend (Path.append parent name)) children
  | Dir _ Denied _ => []
  | Dir _ (Faulty what) _ => [Raise what]
  | _ => []
  end.

(** [fs::recursive_directory_iterator(directory, skip_permission_denied)] *)
Definition recursive_directory_iterator (directory : string) (root : node) : list item :=
  open_dir root (flat_map (descend directory)) (fun what => [Raise what]).

Definition walk (recursive : bool) (directory : string) (root : node) : list item :=
  if recursive then recursive_directory_iterator directory root
  else directory_iterator directory root.

(** ** Events and what a process does *)

(** What a statement writes, before it is turned into text.  [Found] and
    [NotFound] carry the path as it is handed to [operator<<]. *)
Inductive event : Type :=
  | Found (pid : nat) (target path : string)
  | NotFound (pid : nat) (target root : string)
  | WalkError (directory what : string)
  | StartFailure (target : string)
  | InvalidRoot (searchPath : string)
  | OutputFileError (path : string)
  | TempReadError (path : string).

Definition render (ev : event) : string :=
  match ev with
  | Found pid target path =>
      show_pid pid ++ ": " ++ target ++ ": " ++ Path.quoted path ++ newline
  | NotFound pid target root =>
      show_pid pid ++ ": " ++ target ++ ": Not found in " ++ Path.quoted root ++ newline
  | WalkError directory what =>
      "Error accessing " ++ directory ++ ": " ++ what ++ newline
  | StartFailure target =>
      "Error: Failed to create process for " ++ target ++ newline
  | InvalidRoot searchPath =>
      "Error: Invalid or non-existent directory: " ++ searchPath ++ newline
  | OutputFileError path =>
      "Error: Unable to create or open output file: " ++ path ++ newline
  | TempReadError path =>
      "Error: Unable to read temporary file: " ++ path ++ newline
  end.

(** The operations of one process that reach outside it, in program order. *)
Inductive action : Type :=
  | Out (ev : event)                      (* a statement on std::cout *)
  | Err (ev : event)                      (* a statement on std::cerr *)
  | SemWait                               (* sem_wait(&semaphore) *)
  | SemPost                               (* sem_post(&semaphore) *)
  | FileOpen (path : string)              (* std::ofstream f(path) *)
  | FileWrite (path : string) (ev : event)
  | FileRemove (path : string).           (* fs::remove(path) *)

Definition is_found (ev : event) : bool :=
  match ev with Found _ _ _ => true | _ => false end.

Definition is_not_found (ev : event) : bool :=
  match ev with NotFound _ _ _ => true | _ => false end.

Definition is_walk_error (ev : event) : bool :=
  match ev with WalkError _ _ => true | _ => false end.

(** The events written to the match stream (stdout) and to the diagnostic
    stream (stderr) by a trace. *)
Fixpoint stdout (tr : list action) : list event :=
  match tr with
  | [] => []
  | Out ev :: r => ev :: stdout r
  | _ :: r => stdout r
  end.

Fixpoint stderr (tr : list action) : list event :=
  match tr with
  | [] => []
  | Err ev :: r => ev :: stderr r
  | _ :: r => stderr r
  end.

Definition count {A} (p : A -> bool) (l : list A) : nat := length (filter p l).

(** No [NotFound] comes after a [Found] in a sequence of events. *)
Fixpoint no_miss_after_hit (evs : list event) : bool :=
  match evs with
  | [] => true
  | ev :: r =>
      (if is_found ev then Nat.eqb (count is_not_found r) 0 else true)
      && no_miss_after_hit r
  end.

(** The context of a running process that the search reads. *)
Record proc : Type := mkProc {
  pid : nat;          (* getpid() *)
  cwd : string        (* fs::current_path() *)
}.

(** ** Processes

    What [main] gets from outside once the options are parsed. *)
Record world : Type := mkWorld {
  resolve : string -> option node;   (* the node a path names, if it exists *)
  fork : nat -> option nat;          (* i-th call: the child's pid, or failure (-1) *)
  parent : proc;
  sem_shared : bool;                 (* do the children's sem_post reach the
                                        semaphore the parent waits on?  The
                                        program as written gives [false]: the
                                        semaphore is a global initialised with
                                        pshared = 0, which fork copies; [true]
                                        is the semaphore its comments intend. *)
  stat_error : string -> option string
                                     (* for a path that leads to no node: why.
                                        [None]: it names nothing (ENOENT,
                                        ENOTDIR); otherwise the error that
                                        keeps its status from being read (name
                                        too long, loop of links, no search
                                        permission on a parent ...) *)
}.

Inductive status : Type :=
  | Exit (code : Z)          (* main returned code *)
  | Blocked                  (* main waits for ever *)
  | Aborted (what : string). (* an exception nothing catches: std::terminate *)

(** What a call of a throwing function of [std::filesystem] gives. *)
Inductive answer : Type :=
  | Returns (b : bool)
  | Throws (what : string).

Definition EXIT_FAILURE : Z := 1.

(** A child: [w_trace] is what its statements do, the [Out] and [Err] of it
    being the insertions into [std::cout] and [std::cerr].  The child of
    myfind.cpp ends with [_exit], which does not flush: how much of what was
    inserted into [std::cout] reaches a pipe or a file is not modelled. *)
Record worker : Type := mkWorker {
  w_pid : nat;
  w_target : string;
  w_trace : list action
}.

Record outcome : Type := mkOutcome {
  o_status : status;
  o_parent : list action;
  o_workers : list worker
}.

(** [fs::exists(path)] and [fs::is_directory(path)], the overloads that
    throw [filesystem_error] when the status of the path cannot be read; a
    path that names nothing (ENOENT, ENOTDIR) is no error. *)
Definition fs_exists (w : world) (path : string) : answer :=
  match resolve w path with
  | Some _ => Returns true
  | None =>
      match stat_error w path with
      | Some what => Throws what
      | None => Returns false
      end
  end.

Definition is_directory (w : world) (path : string) : answer :=
  match resolve w path with
  | Some (Dir _ _ _) => Returns true
  | Some _ => Returns false
  | None =>
      match stat_error w path with
      | Some what => Throws what
      | None => Returns false
      end
  end.

(** [!fs::exists(path) || !fs::is_directory(path)], the condition of the
    check of the search path (myfind.cpp line 130), left to right. *)
Definition not_a_directory (w : world) (path : string) : answer :=
  match fs_exists w path with
  | Throws what => Throws what
  | Returns false => Returns true
  | Returns true =>
      match is_directory w path with
      | Throws what => Throws what
      | Returns b => Returns (negb b)
      end
  end.

(** ** myfind.cpp *)

Module Myfind.

Section Task.

Variable fl : flags.
Variable self : proc.

(** The body of either range-for of [searchForFile] (lines 44-49 and
    52-57): the statements run, the final value of [found], and the
    exception that ended the loop, if one did. *)
Fixpoint scan (filename : string) (items : list item) (found : bool)
    : list action * bool * option string :=
  match items with
  | [] => ([], found, None)
  | Raise what :: _ => ([], found, Some what)
  | Yield e :: rest =>
      if isMatchingFilename (caseInsensetiveSearch fl) (e_name e) filename then
        let '(tr, found', exn) := scan filename rest true in
        (Out (Found (pid self) filename (Path.absolute (cwd self) (e_path e))) :: tr,
         found', exn)
      else scan filename rest found
  end.

(** [searchForFile] (lines 38-69); [root] is the node [directory] names. *)
Definition searchForFile (directory : string) (root : node) (filename : string)
    : list action :=
  let '(tr, found, exn) :=
    scan filename (walk (recursiveSearchEnabled fl) directory root) false in
  match exn with
  | None =>
      tr ++ (if negb found
             then [Out (NotFound (pid self) filename (Path.absolute (cwd self) directory))]
             else [])
         ++ [SemPost]
  | Some what =>
      tr ++ [Err (WalkError directory what)] ++ [SemPost]
  end.

End Task.

Section Main.

Variable fl : flags.
Variable w : world.

(** The fork loop (lines 136-145): the child runs [searchForFile] and
    [_exit]s, the parent reports a failed fork and goes on.  [i] counts the
    calls of [fork] so far.  The trace of a child is what its statements
    insert into the streams; [_exit(0)] leaves what [std::cout] still
    buffers unwritten, which this model does not follow. *)
Fixpoint spawn (searchPath : string) (root : node) (filenames : list string)
    (i : nat) : list action * list worker :=
  match filenames with
  | [] => ([], [])
  | filename :: rest =>
      let '(errs, ws) := spawn searchPath root rest (S i) in
      match fork w i with
      | Some child =>
          (errs,
           mkWorker child filename
             (searchForFile fl (mkProc child (cwd (parent w))) searchPath root filename)
           :: ws)
      | None => (Err (StartFailure filename) :: errs, ws)
      end
  end.

(** The wait loop (lines 148-150): [n] calls of [sem_wait] on a semaphore
    that will be posted [posts] more times in all.  [false]: a call never
    returns. *)
Fixpoint sem_wait_all (n value posts : nat) : list action * bool :=
  match n with
  | 0 => ([], true)
  | S n' =>
      match value, posts with
      | S v, _ => let '(tr, ok) := sem_wait_all n' v posts in (SemWait :: tr, ok)
      | 0, S p => let '(tr, ok) := sem_wait_all n' 0 p in (SemWait :: tr, ok)
      | 0, 0 => ([], false)
      end
  end.

Definition posts_of (ws : list worker) : nat :=
  length (filter (fun a => match a with SemPost => true | _ => false end)
                 (flat_map w_trace ws)).

(** [main] from line 126 on: [searchPath] and [filenames] are what the
    option parsing left.  The semaphore was initialised to 0 (line 86). *)
Definition main (searchPath : string) (filenames : list string) : outcome :=
  match not_a_directory w searchPath with
  | Throws what => mkOutcome (Aborted what) [] []     (* nothing catches it *)
  | Returns true => mkOutcome (Exit EXIT_FAILURE) [Err (InvalidRoot searchPath)] []
  | Returns false =>
      match resolve w searchPath with
      | Some root =>
          let '(errs, ws) := spawn searchPath root filenames 0 in
          let posts := if sem_shared w then posts_of ws else 0 in
          let '(waits, ok) := sem_wait_all (length filenames) 0 posts in
          mkOutcome (if ok then Exit 0 else Blocked) (errs ++ waits) ws
      | None => mkOutcome (Exit EXIT_FAILURE) [Err (InvalidRoot searchPath)] []
      end
  end.

End Main.

End Myfind.

(** ** The variant with [find_file] (regular files only, no "Not found")

    The second of the two programs of [part_001]. *)

Module FindFile.

Definition compare_filenames (caseInsensitive : bool) (file1 file2 : string) : bool :=
  if caseInsensitive then
    Z.eqb (CString.strcasecmp (CString.c_str file1) (CString.c_str file2)) 0
  else
    String.eqb file1 file2.

(** The iterators on a path that may name nothing. *)
Definition walk_path (recursive : bool) (searchpath : string) (target : option node)
    : list item :=
  match target with
  | Some root => walk recursive searchpath root
  | None => [Raise "No such file or directory"]
  end.

Section Task.

Variable fl : flags.
Variable self : proc.

(** Either loop of [find_file] (lines 26-30 and 32-36).  Nothing catches
    the exception of an iterator: it ends the process. *)
Fixpoint scan (filename : string) (items : list item) : list action * option string :=
  match items with
  | [] => ([], None)
  | Raise what :: _ => ([], Some what)
  | Yield e :: rest =>
      let '(tr, exn) := scan filename rest in
      if kind_eqb (e_kind e) Regular
         && compare_filenames (caseInsensetiveSearch fl) (e_name e) filename
      then (Out (Found (pid self) filename (e_path e)) :: tr, exn)
      else (tr, exn)
  end.

Definition find_file (searchpath : string) (target : option node) (filename : string)
    : list action * option string :=
  scan filename (walk_path (recursiveSearchEnabled fl) searchpath target).

End Task.

Section Main.

Variable fl : flags.
Variable w : world.
Variable home : string.     (* getenv("home"), else the passwd entry *)

(** The fork loop (lines 71-77); a failed fork is not looked at. *)
Fixpoint spawn (searchpath : string) (filenames : list string) (i : nat) : list worker :=
  match filenames with
  | [] => []
  | filename :: rest =>
      match fork w i with
      | Some child =>
          mkWorker child filename
            (fst (find_file fl (mkProc child (cwd (parent w))) searchpath
                            (resolve w searchpath) filename))
          :: spawn searchpath rest (S i)
      | None => spawn searchpath rest (S i)
      end
  end.

(** [main] from line 57 on.  [wait(NULL)] fails once no child is left, so
    the loop of line 80 ends when the children have. *)
Definition main (searchpath : string) (filenames : list string) : outcome :=
  let searchpath := if String.eqb searchpath "~" then home else searchpath in
  mkOutcome (Exit 0) [] (spawn searchpath filenames 0).

End Main.

End FindFile.

(** ** The variant that brackets every write with the semaphore

    The second program of [part_003] (lines 186-222 of that file). *)

Module Guarded.

Section Task.

Variable fl : flags.
Variable self : proc.

Fixpoint scan (filename : string) (items : list item) (found : bool)
    : list action * bool * option string :=
  match items with
  | [] => ([], found, None)
  | Raise what :: _ => ([], found, Some what)
  | Yield e :: rest =>
      if isMatchingFilename (caseInsensetiveSearch fl) (e_name e) filename then
        let '(tr, found', exn) := scan filename rest true in
        (SemWait
           :: Out (Found (pid self) filename (Path.absolute (cwd self) (e_path e)))
           :: SemPost :: tr,
         found', exn)
      else scan filename rest found
  end.

Definition searchForFile (directory : string) (root : node) (filename : string)
    : list action :=
  let '(tr, found, exn) :=
    scan filename (walk (recursiveSearchEnabled fl) directory root) false in
  match exn with
  | None =>
      tr ++ (if negb found
             then [SemWait;
                   Out (NotFound (pid self) filename (Path.absolute (cwd self) directory));
                   SemPost]
             else [])
  | Some what =>
      tr ++ [SemWait; Err (WalkError directory what); SemPost]
  end.

End Task.

End Guarded.

(** Every write to a stream in the trace stands between a [SemWait] and a
    [SemPost] of the same process. *)
Fixpoint bracketed (tr : list action) : bool :=
  match tr with
  | [] => true
  | SemWait :: Out _ :: SemPost :: r => bracketed r
  | SemWait :: Err _ :: SemPost :: r => bracketed r
  | Out _ :: _ | Err _ :: _ => false
  | _ :: r => bracketed r
  end.

Definition is_sem_wait (a : action) : bool :=
  match a with SemWait => true | _ => false end.

Definition is_sem_post (a : action) : bool :=
  match a with SemPost => true | _ => false end.

Definition is_write (a : action) : bool :=
  match a with Out _ | Err _ => true | _ => false end.

(** How often a trace posts the semaphore. *)
Definition posts (tr : list action) : nat := count is_sem_post tr.

(** ** Files outside the streams *)

(** The regular files a run can create or delete: path and contents. *)
Definition store : Type := list (string * list event).

Fixpoint lookup (path : string) (st : store) : option (list event) :=
  match st with
  | [] => None
  | (p, c) :: r => if String.eqb p path then Some c else lookup path r
  end.

Fixpoint remove (path : string) (st : store) : store :=
  match st with
  | [] => []
  | (p, c) :: r => if String.eqb p path then remove path r else (p, c) :: remove path r
  end.

Fixpoint append_to (path : string) (ev : event) (st : store) : store :=
  match st with
  | [] => []
  | (p, c) :: r =>
      if String.eqb p path then (p, c ++ [ev]) :: r else (p, c) :: append_to path ev r
  end.

Definition exec (st : store) (a : action) : store :=
  match a with
  | FileOpen path => (path, []) :: remove path st      (* created or truncated *)
  | FileWrite path ev => append_to path ev st
  | FileRemove path => remove path st
  | _ => st
  end.

Definition run_store (tr : list action) (st : store) : store := fold_left exec tr st.

Definition touches_files (a : action) : bool :=
  match a with
  | FileOpen _ | FileWrite _ _ | FileRemove _ => true
  | _ => false
  end.

(** A trace that opens, writes and removes no file. *)
Definition quiet (tr : list action) : bool :=
  forallb (fun a => negb (touches_files a)) tr.

(** Every action of a run: the parent's and each worker's. *)
Definition all_actions (o : outcome) : list action :=
  o_parent o ++ flat_map w_trace (o_workers o).

(** ** The variant that buffers results in temporary files

    The first program of [part_003]. *)

Module TempFile.

Definition temp_name (pid : nat) : string :=
  "/tmp/myfind_" ++ show_pid pid ++ ".log".

Section Task.

Variable fl : flags.
Variable self : proc.

Fixpoint scan (filename outputFile : string) (items : list item) (found : bool)
    : list action * bool * option string :=
  match items with
  | [] => ([], found, None)
  | Raise what :: _ => ([], found, Some what)
  | Yield e :: rest =>
      if isMatchingFilename (caseInsensetiveSearch fl) (e_name e) filename then
        let '(tr, found', exn) := scan filename outputFile rest true in
        (FileWrite outputFile
           (Found (pid self) filename (Path.absolute (cwd self) (e_path e))) :: tr,
         found', exn)
      else scan filename outputFile rest found
  end.

(** [searchForFile] (lines 33-69); [can_open]: did the [ofstream] open? *)
Definition searchForFile (can_open : bool) (directory : string) (root : node)
    (filename outputFile : string) : list action :=
  if negb can_open then [Err (OutputFileError outputFile)]
  else
    FileOpen outputFile ::
    let '(tr, found, exn) :=
      scan filename outputFile (walk (recursiveSearchEnabled fl) directory root) false in
    match exn with
    | None =>
        tr ++ (if negb found
               then [FileWrite outputFile
                       (NotFound (pid self) filename (Path.absolute (cwd self) directory))]
               else [])
    | Some what => tr ++ [FileWrite outputFile (WalkError directory what)]
    end.

End Task.

Section Main.

Variable fl : flags.
Variable w : world.
Variable can_open : string -> bool.

(** The fork loop (lines 115-130): the workers and the names pushed on
    [tempFiles]. *)
Fixpoint spawn (searchPath : string) (root : node) (filenames : list string)
    (i : nat) : list action * list worker * list string :=
  match filenames with
  | [] => ([], [], [])
  | filename :: rest =>
      let '(errs, ws, tmps) := spawn searchPath root rest (S i) in
      match fork w i with
      | Some child =>
          (errs,
           mkWorker child filename
             (searchForFile fl (mkProc child (cwd (parent w)))
                (can_open (temp_name child)) searchPath root filename (temp_name child))
           :: ws,
           temp_name child :: tmps)
      | None => (Err (StartFailure filename) :: errs, ws, tmps)
      end
  end.

(** The read-back loop (lines 136-145) on the files as the workers left
    them. *)
Fixpoint read_back (tempFiles : list string) (st : store) : list action :=
  match tempFiles with
  | [] => []
  | tempFile :: rest =>
      (match lookup tempFile st with
       | Some contents => map Out contents
       | None => [Err (TempReadError tempFile)]
       end)
      ++ FileRemove tempFile :: read_back rest (remove tempFile st)
  end.

Definition main (st : store) (searchPath : string) (filenames : list string) : outcome :=
  match not_a_directory w searchPath with
  | Throws what => mkOutcome (Aborted what) [] []
  | Returns true => mkOutcome (Exit EXIT_FAILURE) [Err (InvalidRoot searchPath)] []
  | Returns false =>
      match resolve w searchPath with
      | Some root =>
          let '(errs, ws, tmps) := spawn searchPath root filenames 0 in
          let st' := run_store (flat_map w_trace ws) st in
          mkOutcome (Exit 0) (errs ++ read_back tmps st') ws
      | None => mkOutcome (Exit EXIT_FAILURE) [Err (InvalidRoot searchPath)] []
      end
  end.

End Main.

End TempFile.

(** ** What a range-for sees of an iterator *)

(** The entries the loop body runs on: those before the first exception. *)
Fixpoint visited (items : list item) : list entry :=
  match items with
  | Yield e :: rest => e :: visited rest
  | _ => []
  end.

(** The exception that ends the loop, if there is one. *)
Fixpoint first_error (items : list item) : option string :=
  match items with
  | [] => None
  | Yield _ :: rest => first_error rest
  | Raise what :: _ => Some what
  end.

(** The entries whose name the matcher accepts. *)
Definition hits (caseInsensitive : bool) (filename : string) (es : list entry)
    : list entry :=
  filter (fun e => isMatchingFilename caseInsensitive (e_name e) filename) es.

Definition is_regular (e : entry) : bool := kind_eqb (e_kind e) Regular.

(** The [Found] event of lines 46 and 54 for an entry. *)
Definition found_of (self : proc) (filename : string) (e : entry) : event :=
  Found (pid self) filename (Path.absolute (cwd self) (e_path e)).

(** ** Sample inputs *)

Module Sample.

Definition recursive_exact : flags := mkFlags true false.
Definition flat_exact : flags := mkFlags false false.

Definition child : proc := mkProc 7 "/".

(** /root/a.txt, /root/sub/a.txt, /root/b.log *)
Definition tree : node :=
  Dir "root" Readable [File "a.txt"; Dir "sub" Readable [File "a.txt"]; File "b.log"].

(** The same with a directory that cannot be read (not for lack of
    permission) before the other entries. *)
Definition faulty_tree : node :=
  Dir "root" Readable
    [Dir "bad" (Faulty "Input/output error") []; File "a.txt"; File "b.log"].

(** A directory that bears the name looked for. *)
Definition dir_tree : node :=
  Dir "root" Readable [Dir "a.txt" Readable []; File "b.log"].

(** A file system with that tree at /root and nothing else. *)
Definition fs (path : string) : option node :=
  if String.eqb path "/root" then Some tree else None.

Definition every_fork_succeeds (i : nat) : option nat := Some (100 + i).

Definition first_fork_fails (i : nat) : option nat :=
  match i with
  | 0 => None
  | S _ => Some (100 + i)
  end.

(** /locked/data lies below a directory that may not be searched. *)
Definition stat_errors (path : string) : option string :=
  if String.eqb path "/locked/data" then Some "Permission denied" else None.

Definition world_ok : world :=
  mkWorld fs every_fork_succeeds (mkProc 1 "/") false stat_errors.

Definition world_fork_failure : world :=
  mkWorld fs first_fork_fails (mkProc 1 "/") false stat_errors.

(** The same with the semaphore where parent and children share it. *)
Definition world_shared : world :=
  mkWorld fs every_fork_succeeds (mkProc 1 "/") true stat_errors.

End Sample.

(** ** The command line of myfind.cpp (lines 80-127) *)

Module Options.

(** What the calls of [getopt(argc, argv, "Ri")] gave: the characters it
    returned before EOF, in order, and [optind] after the last call.
    [argv] is the argument vector as getopt left it. *)
Record getopt_run : Type := mkGetopt {
  g_opts : list ascii;
  g_optind : nat
}.

(** The lines [main] itself writes to stderr while it looks at the
    options. *)
Inductive notice : Type :=
  | RepeatedR                      (* line 93 *)
  | RepeatedI                      (* line 101 *)
  | Usage (programName : string)   (* printUsage *)
  | Combined.                      (* line 121 *)

Definition render_notice (n : notice) : string :=
  match n with
  | RepeatedR => "Error: Option -R can only be specified once." ++ newline
  | RepeatedI => "Error: Option -i can only be specified once." ++ newline
  | Usage programName =>
      "Usage: " ++ programName ++ " [-R] [-i] searchpath filename1 [filename2] ..."
        ++ newline
        ++ "Options:" ++ newline
        ++ "  -R  Search directories recursively" ++ newline
        ++ "  -i  Perform case-insensitive filename matching" ++ newline
  | Combined => "Error: Options -R and -i must be specified separately." ++ newline
  end.

(** The locals and globals the option loop writes. *)
Record parse_state : Type := mkParse {
  optionError : bool;
  recursiveOptionUsed : bool;
  caseInsensitiveOptionUsed : bool;
  p_flags : flags;
  p_notices : list notice
}.

Definition initial : parse_state :=
  mkParse false false false (mkFlags false false) [].

Definition opt_R : ascii := "R"%char.
Definition opt_i : ascii := "i"%char.

(** One turn of the [switch] (lines 90-110). *)
Definition step (st : parse_state) (opt : ascii) : parse_state :=
  if Ascii.eqb opt opt_R then
    mkParse (optionError st || recursiveOptionUsed st)
            true
            (caseInsensitiveOptionUsed st)
            (mkFlags true (caseInsensetiveSearch (p_flags st)))
            (p_notices st ++ (if recursiveOptionUsed st then [RepeatedR] else []))
  else if Ascii.eqb opt opt_i then
    mkParse (optionError st || caseInsensitiveOptionUsed st)
            (recursiveOptionUsed st)
            true
            (mkFlags (recursiveSearchEnabled (p_flags st)) true)
            (p_notices st ++ (if caseInsensitiveOptionUsed st then [RepeatedI] else []))
  else
    mkParse true (recursiveOptionUsed st) (caseInsensitiveOptionUsed st)
            (p_flags st) (p_notices st).

Definition parse (opts : list ascii) : parse_state := fold_left step opts initial.

(** [argv[optind - 1][0] == '-' && strlen(argv[optind - 1]) > 2] *)
Definition long_dash_word (word : string) : bool :=
  match word with
  | String c _ => Ascii.eqb c "-"%char && (2 <? String.length word)%nat
  | EmptyString => false
  end.

(** What is left for the rest of [main]. *)
Record command : Type := mkCommand {
  c_flags : flags;
  c_searchPath : string;
  c_filenames : list string
}.

(** Lines 113-127: the notices written, and the command or, when [main]
    returns EXIT_FAILURE here, nothing. *)
Definition arguments (argv : list string) (g : getopt_run)
    : list notice * option command :=
  let st := parse (g_opts g) in
  let argc := length argv in
  if optionError st || (argc <=? g_optind g)%nat then
    (p_notices st ++ [Usage (nth 0 argv "")], None)
  else if (1 <? g_optind g)%nat && long_dash_word (nth (g_optind g - 1) argv "") then
    (p_notices st ++ [Combined], None)
  else
    (p_notices st,
     Some (mkCommand (p_flags st) (nth (g_optind g) argv "")
                     (skipn (S (g_optind g)) argv))).

(** The whole of [main]. *)
Definition main (w : world) (argv : list string) (g : getopt_run)
    : list notice * outcome :=
  match arguments argv g with
  | (notices, None) => (notices, mkOutcome (Exit EXIT_FAILURE) [] [])
  | (notices, Some c) =>
      (notices, Myfind.main (c_flags c) w (c_searchPath c) (c_filenames c))
  end.

Definition occurrences (c : ascii) (opts : list ascii) : nat :=
  count (Ascii.eqb c) opts.

Definition unknown (opt : ascii) : bool :=
  negb (Ascii.eqb opt opt_R) && negb (Ascii.eqb opt opt_i).

End Options.

(** ** The dispatcher of the variant with the guarded writes

    [main] of the second program of [part_003], from line 274 of that file
    on. *)

Module GuardedMain.

Section Main.

Variable fl : flags.
Variable w : world.

(** The fork loop: the report of a failed fork is bracketed too. *)
Fixpoint spawn (searchPath : string) (root : node) (filenames : list string)
    (i : nat) : list action * list worker :=
  match filenames with
  | [] => ([], [])
  | filename :: rest =>
      let '(errs, ws) := spawn searchPath root rest (S i) in
      match fork w i with
      | Some child =>
          (errs,
           mkWorker child filename
             (Guarded.searchForFile fl (mkProc child (cwd (parent w)))
                searchPath root filename)
           :: ws)
      | None => (SemWait :: Err (StartFailure filename) :: SemPost :: errs, ws)
      end
  end.

(** [waitpid(-1, &status, 0)] fails at once when no child is left, so the
    loop of [filenames.size()] calls ends when the children have. *)
Definition main (searchPath : string) (filenames : list string) : outcome :=
  match not_a_directory w searchPath with
  | Throws what => mkOutcome (Aborted what) [] []
  | Returns true => mkOutcome (Exit EXIT_FAILURE) [Err (InvalidRoot searchPath)] []
  | Returns false =>
      match resolve w searchPath with
      | Some root =>
          let '(errs, ws) := spawn searchPath root filenames 0 in
          mkOutcome (Exit 0) errs ws
      | None => mkOutcome (Exit EXIT_FAILURE) [Err (InvalidRoot searchPath)] []
      end
  end.

End Main.

End GuardedMain.

(** ** Helpers for the statements *)

(** The value of a semaphore after a trace of the process that owns it,
    [None] when a [sem_wait] finds it at 0 and nobody else posts. *)
Fixpoint sem_run (value : nat) (tr : list action) : option nat :=
  match tr with
  | [] => Some value
  | SemWait :: r =>
      match value with
      | 0 => None
      | S v => sem_run v r
      end
  | SemPost :: r => sem_run (S value) r
  | _ :: r => sem_run value r
  end.

(** The targets whose fork succeeded, with the pid of the child, and those
    whose fork failed; [i] is the number of the first call. *)
Fixpoint started (fork : nat -> option nat) (filenames : list string) (i : nat)
    : list (nat * string) :=
  match filenames with
  | [] => []
  | filename :: rest =>
      match fork i with
      | Some child => (child, filename) :: started fork rest (S i)
      | None => started fork rest (S i)
      end
  end.

Fixpoint not_started (fork : nat -> option nat) (filenames : list string) (i : nat)
    : list string :=
  match filenames with
  | [] => []
  | filename :: rest =>
      match fork i with
      | Some _ => not_started fork rest (S i)
      | None => filename :: not_started fork rest (S i)
      end
  end.

(** No directory the walk opens fails for another reason than lack of
    permission. *)
Fixpoint no_fault (n : node) : bool :=
  match n with
  | Dir _ (Faulty _) _ => false
  | Dir _ Denied _ => true            (* never looked into *)
  | Dir _ Readable children => forallb no_fault children
  | _ => true
  end.

(** Every directory the walk of [root] opens can be opened or is passed
    over for lack of permission: the root alone in a flat walk, in a
    recursive walk also what lies below readable directories. *)
Definition opens_cleanly (recursive : bool) (root : node) : bool :=
  match root with
  | Dir _ Readable children => if recursive then forallb no_fault children else true
  | Dir _ Denied _ => true
  | _ => false
  end.

Definition is_dir (n : node) : bool :=
  match n with Dir _ _ _ => true | _ => false end.

(** The pid and target an event on the match stream is attributed to. *)
Definition attributed (pid : nat) (target : string) (ev : event) : bool :=
  match ev with
  | Found p t _ | NotFound p t _ => Nat.eqb p pid && String.eqb t target
  | _ => false
  end.

(** The path an event on the match stream shows. *)
Definition shown_path (ev : event) : option string :=
  match ev with
  | Found _ _ path => Some path
  | NotFound _ _ root => Some root
  | _ => None
  end.


(** The file an action opens, writes or removes. *)
Definition file_of (a : action) : option string :=
  match a with
  | FileOpen path | FileWrite path _ | FileRemove path => Some path
  | _ => None
  end.


(** All that the child of myfind.cpp for a target writes, stdout first. *)
Definition report (fl : flags) (self : proc) (directory : string) (root : node)
    (filename : string) : list event :=
  stdout (Myfind.searchForFile fl self directory root filename)
  ++ stderr (Myfind.searchForFile fl self directory root filename).

(** A file opened and written from its beginning. *)
Definition file_trace (job : string * list event) : list action :=
  FileOpen (fst job) :: map (FileWrite (fst job)) (snd job).

(** * Properties *)

(** ** The matcher *)

Lemma code_zero (c : ascii) : CString.code c = 0%Z -> c = CString.NUL.
Proof.
  unfold CString.code. intros H.
  assert (E : nat_of_ascii c = 0) by lia.
  rewrite <- (ascii_nat_embedding c), E. reflexivity.
Qed.

Lemma tolower_NUL (c : ascii) : CString.tolower c = CString.NUL -> c = CString.NUL.
Proof.
  destruct c as [[] [] [] [] [] [] [] []]; vm_compute; intros H;
    solve [reflexivity | discriminate H].
Qed.

Lemma code_inj (a b : ascii) : CString.code a = CString.code b -> a = b.
Proof.
  unfold CString.code. intros H.
  rewrite <- (ascii_nat_embedding a), <- (ascii_nat_embedding b).
  f_equal. lia.
Qed.

Lemma c_str_no_NUL (s : string) : Forall (fun c => c <> CString.NUL) (CString.c_str s).
Proof.
  induction s as [|c r IH]; simpl; [constructor|].
  destruct (Ascii.eqb c CString.NUL) eqn:E; constructor; auto.
  intros ->. rewrite Ascii.eqb_refl in E. discriminate.
Qed.

Lemma strcasecmp_zero (a b : list ascii) :
  Forall (fun c => c <> CString.NUL) a ->
  Forall (fun c => c <> CString.NUL) b ->
  (CString.strcasecmp a b = 0%Z <-> CString.fold_case a = CString.fold_case b).
Proof.
  intros Ha. revert b.
  induction Ha as [|x a Hx Ha IH]; intros b Hb; destruct Hb as [|y b Hy Hb]; simpl.
  - tauto.
  - split; [|discriminate].
    intros H. exfalso. apply Hy, tolower_NUL, code_zero. lia.
  - split; [|discriminate].
    intros H. exfalso. apply Hx, tolower_NUL, code_zero. exact H.
  - destruct (Ascii.eqb (CString.tolower x) (CString.tolower y)) eqn:E.
    + apply Ascii.eqb_eq in E. rewrite E, (IH b Hb).
      split; [intros ->; reflexivity | intros H; injection H; auto].
    + apply Ascii.eqb_neq in E. split.
      * intros H. exfalso. apply E, code_inj. lia.
      * intros H. injection H as H1 _. contradiction.
Qed.

(** C10: without [-i] the matcher holds exactly for equal strings; with
    [-i] it holds exactly when the two C strings agree once every ASCII
    upper-case letter is folded to lower case, so "Report.TXT" matches
    "report.txt" with [-i] and does not without it. *)
Theorem isMatchingFilename_case_policy :
  (forall candidate target : string,
     isMatchingFilename false candidate target = true <-> candidate = target) /\
  (forall candidate target : string,
     isMatchingFilename true candidate target = true <->
     CString.fold_case (CString.c_str candidate) = CString.fold_case (CString.c_str target)) /\
  isMatchingFilename true "Report.TXT" "report.txt" = true /\
  isMatchingFilename false "Report.TXT" "report.txt" = false.
Proof.
  repeat split.
  - apply String.eqb_eq.
  - apply String.eqb_eq.
  - unfold isMatchingFilename. intros H. apply Z.eqb_eq in H.
    apply strcasecmp_zero in H; auto using c_str_no_NUL.
  - unfold isMatchingFilename. intros H. apply Z.eqb_eq.
    apply strcasecmp_zero; auto using c_str_no_NUL.
Qed.

(** ** The trace of one search task *)

Section TaskTrace.

Variable fl : flags.
Variable self : proc.
Variable filename : string.

Lemma scan_spec (items : list item) (found : bool) :
  Myfind.scan fl self filename items found =
  (map (fun e => Out (found_of self filename e)) (hits (caseInsensetiveSearch fl) filename (visited items)),
   found || negb (Nat.eqb (length (hits (caseInsensetiveSearch fl) filename (visited items))) 0),
   first_error items).
Proof.
  revert found. induction items as [|[e|what] rest IH]; intros found; simpl.
  - now rewrite orb_false_r.
  - unfold hits in *. simpl.
    destruct (isMatchingFilename (caseInsensetiveSearch fl) (e_name e) filename).
    + rewrite IH. simpl. now rewrite orb_true_r.
    + apply IH.
  - now rewrite orb_false_r.
Qed.

(** [searchForFile] writes one [Found] per matching entry seen, then either
    the "Not found" line (no exception, nothing found) or the diagnostic (an
    exception), then posts the semaphore. *)
Lemma searchForFile_trace (directory : string) (root : node) :
  let items := walk (recursiveSearchEnabled fl) directory root in
  let hs := hits (caseInsensetiveSearch fl) filename (visited items) in
  Myfind.searchForFile fl self directory root filename =
  map (fun e => Out (found_of self filename e)) hs ++
  match first_error items with
  | None =>
      (match hs with
       | [] => [Out (NotFound (pid self) filename (Path.absolute (cwd self) directory))]
       | _ :: _ => []
       end) ++ [SemPost]
  | Some what => [Err (WalkError directory what); SemPost]
  end.
Proof.
  intros items hs. unfold Myfind.searchForFile. fold items.
  rewrite scan_spec. fold hs. simpl.
  destruct (first_error items); [reflexivity|].
  destruct hs; reflexivity.
Qed.

End TaskTrace.

Lemma stdout_app (a b : list action) : stdout (a ++ b) = stdout a ++ stdout b.
Proof.
  induction a as [|[] a IH]; simpl; try rewrite IH; reflexivity.
Qed.

Lemma stderr_app (a b : list action) : stderr (a ++ b) = stderr a ++ stderr b.
Proof.
  induction a as [|[] a IH]; simpl; try rewrite IH; reflexivity.
Qed.

Lemma stdout_map_Out {A} (f : A -> event) (l : list A) :
  stdout (map (fun x => Out (f x)) l) = map f l.
Proof. induction l; simpl; congruence. Qed.

Lemma stderr_map_Out {A} (f : A -> event) (l : list A) :
  stderr (map (fun x => Out (f x)) l) = [].
Proof. induction l; simpl; congruence. Qed.

Section TaskStreams.

Variable fl : flags.
Variable self : proc.
Variable filename : string.
Variable directory : string.
Variable root : node.

Let items := walk (recursiveSearchEnabled fl) directory root.
Let hs := hits (caseInsensetiveSearch fl) filename (visited items).

Lemma searchForFile_stdout :
  stdout (Myfind.searchForFile fl self directory root filename) =
  map (found_of self filename) hs ++
  match first_error items, hs with
  | None, [] => [NotFound (pid self) filename (Path.absolute (cwd self) directory)]
  | _, _ => []
  end.
Proof.
  rewrite searchForFile_trace. fold items. fold hs.
  rewrite stdout_app, stdout_map_Out.
  destruct (first_error items); [reflexivity|].
  destruct hs; reflexivity.
Qed.

Lemma searchForFile_stderr :
  stderr (Myfind.searchForFile fl self directory root filename) =
  match first_error items with
  | Some what => [WalkError directory what]
  | None => []
  end.
Proof.
  rewrite searchForFile_trace. fold items. fold hs.
  rewrite stderr_app, stderr_map_Out.
  destruct (first_error items); [reflexivity|].
  destruct hs; reflexivity.
Qed.

End TaskStreams.

Lemma count_app {A} (p : A -> bool) (a b : list A) :
  count p (a ++ b) = count p a + count p b.
Proof. unfold count. now rewrite filter_app, length_app. Qed.

Lemma count_found_founds (self : proc) (filename : string) (es : list entry) :
  count is_found (map (found_of self filename) es) = length es.
Proof. unfold count. induction es; simpl; auto. Qed.

Lemma count_not_found_founds (self : proc) (filename : string) (es : list entry) :
  count is_not_found (map (found_of self filename) es) = 0.
Proof. unfold count. induction es; simpl; auto. Qed.

Lemma no_miss_after_hit_founds (self : proc) (filename : string) (es : list entry) :
  no_miss_after_hit (map (found_of self filename) es) = true.
Proof.
  induction es as [|e es IH]; simpl; [reflexivity|].
  now rewrite count_not_found_founds, IH.
Qed.

(** ** Found and "Not found" of one task *)

(** C1, as the code has it: on the match stream of a task no "Not found"
    follows a [Found] and there is at most one "Not found"; when the walk
    ends without an exception the task wrote at least one [Found] and no
    "Not found", or exactly the one "Not found" line. *)
Theorem searchForFile_found_or_not_found
    (fl : flags) (self : proc) (directory : string) (root : node) (filename : string) :
  let evs := stdout (Myfind.searchForFile fl self directory root filename) in
  no_miss_after_hit evs = true /\
  count is_not_found evs <= 1 /\
  (first_error (walk (recursiveSearchEnabled fl) directory root) = None ->
   (1 <= count is_found evs /\ count is_not_found evs = 0) \/
   evs = [NotFound (pid self) filename (Path.absolute (cwd self) directory)]).
Proof.
  intros evs. subst evs. rewrite searchForFile_stdout.
  set (items := walk (recursiveSearchEnabled fl) directory root).
  set (hs := hits (caseInsensetiveSearch fl) filename (visited items)).
  destruct (first_error items) as [what|] eqn:E.
  - rewrite app_nil_r, no_miss_after_hit_founds, count_not_found_founds.
    repeat split; [lia | discriminate].
  - destruct hs as [|h hs'].
    + simpl. repeat split; [unfold count; simpl; lia | intros _; now right].
    + rewrite app_nil_r, no_miss_after_hit_founds, count_not_found_founds,
        count_found_founds.
      repeat split; [lia | intros _; left; simpl; lia].
Qed.

(** On the sample tree the walk raises nothing and "a.txt" is found twice. *)
Lemma searchForFile_found_or_not_found_witness :
  let evs := stdout (Myfind.searchForFile Sample.recursive_exact Sample.child
                       "/root" Sample.tree "a.txt") in
  (1 <= count is_found evs /\ count is_not_found evs = 0) \/
  evs = [NotFound 7 "a.txt" "/root"].
Proof.
  apply (proj2 (proj2 (searchForFile_found_or_not_found
                         Sample.recursive_exact Sample.child "/root" Sample.tree "a.txt"))).
  reflexivity.
Defined.

(** A directory that fails to open ends the task with neither a [Found] nor
    a "Not found" on the match stream. *)
Lemma searchForFile_neither_found_nor_not_found :
  let evs := stdout (Myfind.searchForFile Sample.recursive_exact Sample.child
                       "/root" Sample.faulty_tree "missing.txt") in
  count is_found evs = 0 /\ count is_not_found evs = 0.
Proof. vm_compute. split; reflexivity. Qed.

(** ** Which entries are reported *)

Lemma filter_found_founds (self : proc) (filename : string) (es : list entry) :
  filter is_found (map (found_of self filename) es) = map (found_of self filename) es.
Proof. induction es; simpl; congruence. Qed.

Lemma find_file_scan_spec (fl : flags) (self : proc) (filename : string)
    (items : list item) :
  FindFile.scan fl self filename items =
  (map (fun e => Out (Found (pid self) filename (e_path e)))
       (filter (fun e => is_regular e
                         && FindFile.compare_filenames (caseInsensetiveSearch fl)
                              (e_name e) filename)
               (visited items)),
   first_error items).
Proof.
  induction items as [|[e|what] rest IH]; simpl; try reflexivity.
  rewrite IH. unfold is_regular.
  destruct (kind_eqb (e_kind e) Regular
            && FindFile.compare_filenames (caseInsensetiveSearch fl) (e_name e) filename);
    reflexivity.
Qed.

(** C3, as the code has it: [searchForFile] of myfind.cpp writes a [Found]
    for every entry the loop sees whose name the matcher accepts, whatever
    the kind of the entry; only [find_file] asks for a regular file too. *)
Theorem searchForFile_reports_every_kind
    (fl : flags) (self : proc) (directory : string) (root : node) (filename : string) :
  filter is_found (stdout (Myfind.searchForFile fl self directory root filename)) =
    map (found_of self filename)
        (filter (fun e => isMatchingFilename (caseInsensetiveSearch fl) (e_name e) filename)
                (visited (walk (recursiveSearchEnabled fl) directory root)))
  /\
  stdout (fst (FindFile.find_file fl self directory (Some root) filename)) =
    map (fun e => Found (pid self) filename (e_path e))
        (filter (fun e => is_regular e
                          && FindFile.compare_filenames (caseInsensetiveSearch fl)
                               (e_name e) filename)
                (visited (walk (recursiveSearchEnabled fl) directory root))).
Proof.
  split.
  - rewrite searchForFile_stdout. fold (hits (caseInsensetiveSearch fl) filename
      (visited (walk (recursiveSearchEnabled fl) directory root))).
    rewrite filter_app, filter_found_founds.
    destruct (first_error _), (hits _ _ _); simpl; now rewrite ?app_nil_r.
  - unfold FindFile.find_file. rewrite find_file_scan_spec. simpl.
    apply (stdout_map_Out (fun e => Found (pid self) filename (e_path e))).
Qed.

(** A directory named "a.txt" is reported by myfind.cpp as a match for
    "a.txt" (and is not by [find_file]). *)
Lemma searchForFile_reports_a_directory :
  visited (walk false "/root" Sample.dir_tree) =
    [mkEntry "/root/a.txt" "a.txt" Directory; mkEntry "/root/b.log" "b.log" Regular] /\
  stdout (Myfind.searchForFile Sample.flat_exact Sample.child
            "/root" Sample.dir_tree "a.txt") =
    [Found 7 "a.txt" "/root/a.txt"] /\
  stdout (fst (FindFile.find_file Sample.flat_exact Sample.child
                 "/root" (Some Sample.dir_tree) "a.txt")) = [].
Proof. vm_compute. repeat split. Qed.

(** [find_file] has no "Not found" line at all: in an empty directory it
    writes nothing. *)
Lemma find_file_never_writes_not_found
    (fl : flags) (self : proc) (searchpath : string) (target : option node)
    (filename : string) :
  count is_not_found (stdout (fst (FindFile.find_file fl self searchpath target filename)))
  = 0.
Proof.
  unfold FindFile.find_file. rewrite find_file_scan_spec. simpl.
  rewrite (stdout_map_Out (fun e => Found (pid self) filename (e_path e))).
  unfold count.
  induction (filter _ (visited _)) as [|e es IH]; simpl; [reflexivity | exact IH].
Qed.

Lemma find_file_empty_directory :
  FindFile.find_file Sample.flat_exact Sample.child "/root"
    (Some (Dir "root" Readable [])) "a.txt" = ([], None).
Proof. reflexivity. Qed.

(** ** An exception of the iterator *)

(** C4, as the code has it: the first exception of the iterator ends the
    task.  The [Found] lines of the entries seen before it stay, one
    diagnostic goes to stderr, nothing is visited afterwards and no "Not
    found" is written. *)
Theorem searchForFile_stops_at_walk_error
    (fl : flags) (self : proc) (directory : string) (root : node)
    (filename what : string) :
  first_error (walk (recursiveSearchEnabled fl) directory root) = Some what ->
  let tr := Myfind.searchForFile fl self directory root filename in
  tr = map (fun e => Out (found_of self filename e))
           (hits (caseInsensetiveSearch fl) filename
                 (visited (walk (recursiveSearchEnabled fl) directory root)))
       ++ [Err (WalkError directory what); SemPost]
  /\ stderr tr = [WalkError directory what]
  /\ count is_not_found (stdout tr) = 0.
Proof.
  intros E tr. subst tr. split; [|split].
  - rewrite searchForFile_trace. simpl. now rewrite E.
  - rewrite searchForFile_stderr. now rewrite E.
  - rewrite searchForFile_stdout. rewrite E.
    now rewrite app_nil_r, count_not_found_founds.
Qed.

Lemma searchForFile_stops_at_walk_error_witness :
  first_error (walk true "/root" Sample.faulty_tree) = Some "Input/output error" /\
  let tr := Myfind.searchForFile Sample.recursive_exact Sample.child
              "/root" Sample.faulty_tree "a.txt" in
  tr = [Err (WalkError "/root" "Input/output error"); SemPost]
  /\ stderr tr = [WalkError "/root" "Input/output error"]
  /\ count is_not_found (stdout tr) = 0.
Proof.
  split; [reflexivity|].
  apply (searchForFile_stops_at_walk_error Sample.recursive_exact Sample.child
           "/root" Sample.faulty_tree "a.txt" "Input/output error").
  reflexivity.
Defined.

(** /root/bad cannot be opened; /root/a.txt comes after it in the walk and
    is found when nothing fails, but with the failure the task writes
    neither its [Found] nor, for a name that is absent, a "Not found". *)
Lemma searchForFile_walk_error_ends_task :
  walk true "/root" Sample.faulty_tree =
    [Yield (mkEntry "/root/bad" "bad" Directory); Raise "Input/output error";
     Yield (mkEntry "/root/a.txt" "a.txt" Regular);
     Yield (mkEntry "/root/b.log" "b.log" Regular)] /\
  Myfind.searchForFile Sample.recursive_exact Sample.child
    "/root" Sample.faulty_tree "a.txt" =
    [Err (WalkError "/root" "Input/output error"); SemPost] /\
  Myfind.searchForFile Sample.recursive_exact Sample.child
    "/root" Sample.faulty_tree "missing.txt" =
    [Err (WalkError "/root" "Input/output error"); SemPost] /\
  Myfind.searchForFile Sample.recursive_exact Sample.child
    "/root" (Dir "root" Readable [Dir "bad" Readable []; File "a.txt"; File "b.log"])
    "a.txt" =
    [Out (Found 7 "a.txt" "/root/a.txt"); SemPost].
Proof. vm_compute. repeat split. Qed.

(** ** The text of the lines *)

Lemma in_hits (ci : bool) (filename : string) (es : list entry) (e : entry) :
  In e (hits ci filename es) -> In e es.
Proof. unfold hits. intros H. apply filter_In in H. tauto. Qed.

(** C8, as the code has it: a [Found] is written to stdout as the pid, the
    target and the absolute path of a visited entry between double quotes
    (as [operator<<] writes a path), a "Not found" likewise with the quoted
    absolute root; the diagnostic of an exception goes to stderr, which
    gets nothing else, and never to stdout. *)
Theorem searchForFile_rendering
    (fl : flags) (self : proc) (directory : string) (root : node) (filename : string) :
  let tr := Myfind.searchForFile fl self directory root filename in
  Forall (fun ev =>
            (exists e,
               In e (visited (walk (recursiveSearchEnabled fl) directory root)) /\
               render ev = (show_pid (pid self) ++ ": " ++ filename ++ ": "
                            ++ Path.quoted (Path.absolute (cwd self) (e_path e))
                            ++ newline)%string)
            \/ render ev = (show_pid (pid self) ++ ": " ++ filename ++ ": Not found in "
                            ++ Path.quoted (Path.absolute (cwd self) directory)
                            ++ newline)%string)
         (stdout tr)
  /\ Forall (fun ev =>
               is_walk_error ev = true /\
               exists what,
                 render ev = ("Error accessing " ++ directory ++ ": " ++ what ++ newline)%string)
            (stderr tr)
  /\ count is_walk_error (stdout tr) = 0.
Proof.
  intros tr. subst tr.
  rewrite searchForFile_stdout, searchForFile_stderr.
  set (items := walk (recursiveSearchEnabled fl) directory root).
  set (hs := hits (caseInsensetiveSearch fl) filename (visited items)).
  assert (Hh : forall e, In e hs -> In e (visited items))
    by (intros e; apply in_hits).
  split; [|split].
  - apply Forall_app. split.
    + apply Forall_forall. intros ev Hev. apply in_map_iff in Hev.
      destruct Hev as (e & <- & He). left. exists e. split; [auto | reflexivity].
    + destruct (first_error items), hs; try solve [constructor].
      constructor; [now right | constructor].
  - destruct (first_error items) as [what|]; [|constructor].
    constructor; [|constructor].
    split; [reflexivity | exists what; reflexivity].
  - rewrite count_app.
    assert (E : count is_walk_error (map (found_of self filename) hs) = 0)
      by (unfold count; clear Hh; induction hs; simpl; auto).
    rewrite E. destruct (first_error items), hs; reflexivity.
Qed.

(** The path reaches the match stream between double quotes: the line is
    not the bare "<pid>: <target>: <path>". *)
Lemma searchForFile_quotes_the_path :
  let lines := map render (stdout (Myfind.searchForFile Sample.flat_exact Sample.child
                                     "/root" Sample.tree "a.txt")) in
  let misses := map render (stdout (Myfind.searchForFile Sample.flat_exact Sample.child
                                      "/root" Sample.tree "missing.txt")) in
  lines = [("7: a.txt: " ++ String Path.dquote ("/root/a.txt" ++ String Path.dquote newline))%string]
  /\ lines <> [("7: a.txt: /root/a.txt" ++ newline)%string]
  /\ misses = [("7: missing.txt: Not found in "
                  ++ String Path.dquote ("/root" ++ String Path.dquote newline))%string]
  /\ misses <> [("7: missing.txt: Not found in /root" ++ newline)%string].
Proof. vm_compute. repeat split; discriminate. Qed.

(** ** The dispatcher of myfind.cpp *)

Lemma posts_founds (self : proc) (filename : string) (es : list entry) :
  posts (map (fun e => Out (found_of self filename e)) es) = 0.
Proof. unfold posts, count. induction es; simpl; auto. Qed.

(** A task posts the semaphore once, whatever it found. *)
Lemma searchForFile_posts_once
    (fl : flags) (self : proc) (directory : string) (root : node) (filename : string) :
  posts (Myfind.searchForFile fl self directory root filename) = 1.
Proof.
  rewrite searchForFile_trace. simpl.
  set (items := walk (recursiveSearchEnabled fl) directory root).
  set (hs := hits (caseInsensetiveSearch fl) filename (visited items)).
  unfold posts. rewrite count_app.
  fold (posts (map (fun e => Out (found_of self filename e)) hs)).
  rewrite posts_founds.
  destruct (first_error items); [reflexivity|].
  destruct hs; reflexivity.
Qed.

Section Dispatcher.

Variable fl : flags.
Variable w : world.
Variable searchPath : string.
Variable root : node.

Lemma spawn_lengths (filenames : list string) (i : nat) :
  length (fst (Myfind.spawn fl w searchPath root filenames i))
  + length (snd (Myfind.spawn fl w searchPath root filenames i))
  = length filenames.
Proof.
  revert i. induction filenames as [|f rest IH]; intros i; simpl; [reflexivity|].
  specialize (IH (S i)).
  destruct (Myfind.spawn fl w searchPath root rest (S i)) as [errs ws].
  destruct (fork w i); simpl in *; lia.
Qed.

Lemma spawn_failure (filenames : list string) (i j : nat) :
  j < length filenames -> fork w (i + j) = None ->
  1 <= length (fst (Myfind.spawn fl w searchPath root filenames i)).
Proof.
  revert i j. induction filenames as [|f rest IH]; intros i j Hj Hf; simpl in *; [lia|].
  destruct j as [|j].
  - rewrite Nat.add_0_r in Hf. rewrite Hf.
    destruct (Myfind.spawn fl w searchPath root rest (S i)). simpl. lia.
  - assert (H := IH (S i) j ltac:(lia)).
    rewrite <- Nat.add_succ_comm in Hf. specialize (H Hf).
    destruct (Myfind.spawn fl w searchPath root rest (S i)) as [errs ws].
    destruct (fork w i); simpl in *; lia.
Qed.

Lemma spawn_all_started (filenames : list string) (i : nat) :
  (forall j, j < length filenames -> fork w (i + j) <> None) ->
  fst (Myfind.spawn fl w searchPath root filenames i) = [].
Proof.
  revert i. induction filenames as [|f rest IH]; intros i H; simpl in *; [reflexivity|].
  assert (E : fst (Myfind.spawn fl w searchPath root rest (S i)) = []).
  { apply IH. intros j Hj. rewrite Nat.add_succ_comm. apply H. lia. }
  destruct (Myfind.spawn fl w searchPath root rest (S i)) as [errs ws].
  simpl in E. subst errs.
  destruct (fork w i) eqn:F; [reflexivity|].
  exfalso. apply (H 0); [lia | now rewrite Nat.add_0_r].
Qed.

Lemma spawn_posts (filenames : list string) (i : nat) :
  Myfind.posts_of (snd (Myfind.spawn fl w searchPath root filenames i))
  = length (snd (Myfind.spawn fl w searchPath root filenames i)).
Proof.
  revert i. induction filenames as [|f rest IH]; intros i; simpl; [reflexivity|].
  specialize (IH (S i)).
  destruct (Myfind.spawn fl w searchPath root rest (S i)) as [errs ws].
  destruct (fork w i) as [child|]; simpl in *; [|exact IH].
  unfold Myfind.posts_of in *. simpl.
  rewrite filter_app, length_app, IH.
  change (posts (Myfind.searchForFile fl (mkProc child (cwd (parent w)))
                   searchPath root f) + length ws = S (length ws)).
  now rewrite searchForFile_posts_once.
Qed.

End Dispatcher.

(** The wait loop ends exactly when the semaphore gets at least as many
    posts as there are calls of [sem_wait]. *)
Lemma sem_wait_all_ok (n value posted : nat) :
  snd (Myfind.sem_wait_all n value posted) = (n <=? value + posted)%nat.
Proof.
  revert value posted. induction n as [|n IH]; intros value posted; simpl; [reflexivity|].
  destruct value as [|v].
  - destruct posted as [|p]; [reflexivity|].
    specialize (IH 0 p). destruct (Myfind.sem_wait_all n 0 p). simpl in *. exact IH.
  - specialize (IH v posted). destruct (Myfind.sem_wait_all n v posted). simpl in *.
    exact IH.
Qed.

(** When [is_directory] returns true the check of the search path lets
    [main] go on. *)
Lemma is_directory_true (w : world) (path : string) :
  is_directory w path = Returns true ->
  not_a_directory w path = Returns false /\
  exists name acc children, resolve w path = Some (Dir name acc children).
Proof.
  unfold not_a_directory, is_directory, fs_exists.
  destruct (resolve w path) as [[name|name|name acc children]|]; try discriminate.
  - intros _. split; [reflexivity|]. now exists name, acc, children.
  - destruct (stat_error w path); discriminate.
Qed.

(** [main] past the check of the search path. *)
Lemma main_valid_root (fl : flags) (w : world) (searchPath : string)
    (filenames : list string) :
  is_directory w searchPath = Returns true ->
  exists root,
    resolve w searchPath = Some root /\
    Myfind.main fl w searchPath filenames =
    let errs := fst (Myfind.spawn fl w searchPath root filenames 0) in
    let ws := snd (Myfind.spawn fl w searchPath root filenames 0) in
    let posted := if sem_shared w then length ws else 0 in
    mkOutcome (if (length filenames <=? posted)%nat then Exit 0 else Blocked)
              (errs ++ fst (Myfind.sem_wait_all (length filenames) 0 posted)) ws.
Proof.
  intros Hd. apply is_directory_true in Hd.
  destruct Hd as (Hn & name & acc & children & Hr).
  unfold Myfind.main. rewrite Hn, Hr.
  exists (Dir name acc children). split; [reflexivity|].
  set (root := Dir name acc children). simpl.
  pose proof (spawn_posts fl w searchPath root filenames 0) as Hp.
  destruct (Myfind.spawn fl w searchPath root filenames 0) as [errs ws].
  simpl in *. rewrite Hp.
  pose proof (sem_wait_all_ok (length filenames) 0
                (if sem_shared w then length ws else 0)) as Hw.
  destruct (Myfind.sem_wait_all (length filenames) 0
              (if sem_shared w then length ws else 0)) as [waits ok].
  simpl in *. now rewrite Hw.
Qed.

(** The three ways the check of the search path can go. *)
Lemma main_root_cases (fl : flags) (w : world) (searchPath : string)
    (filenames : list string) :
  is_directory w searchPath = Returns true \/
  Myfind.main fl w searchPath filenames
    = mkOutcome (Exit EXIT_FAILURE) [Err (InvalidRoot searchPath)] [] \/
  exists what,
    Myfind.main fl w searchPath filenames = mkOutcome (Aborted what) [] [].
Proof.
  unfold Myfind.main, not_a_directory, fs_exists, is_directory.
  destruct (resolve w searchPath) as [[name|name|name acc children]|]; auto.
  destruct (stat_error w searchPath) as [what|]; [right; right; now exists what|].
  auto.
Qed.



(** A search path whose status cannot be read is another matter: the
    exception of [fs::exists] is caught nowhere and ends the program, also
    before any child is forked and with nothing on stdout. *)
Lemma main_unreadable_root (fl : flags) (w : world) (searchPath what : string)
    (filenames : list string) :
  resolve w searchPath = None ->
  stat_error w searchPath = Some what ->
  Myfind.main fl w searchPath filenames = mkOutcome (Aborted what) [] [].
Proof.
  intros Hr H. unfold Myfind.main, not_a_directory, fs_exists. now rewrite Hr, H.
Qed.

Example main_unreadable_root_sample :
  Myfind.main Sample.recursive_exact Sample.world_ok "/locked/data" ["a.txt"]
  = mkOutcome (Aborted "Permission denied") [] [].
Proof. reflexivity. Qed.

(** The variant with [find_file] has no such check: for a path that names
    nothing it forks a child per target, each ended by the exception of the
    iterator before it wrote a line, and returns 0. *)
Lemma find_file_main_does_not_validate :
  let o := FindFile.main Sample.recursive_exact Sample.world_ok "/home/user"
             "/nowhere" ["a.txt"; "missing.txt"] in
  o_status o = Exit 0 /\
  map w_pid (o_workers o) = [100; 101] /\
  stdout (all_actions o) = [].
Proof. vm_compute. repeat split. Qed.

(** The first fork fails: the failure is written to stderr and [main] does
    not return EXIT_FAILURE (it does not return). *)
Lemma main_failed_fork_is_no_failure_status :
  let o := Myfind.main Sample.recursive_exact Sample.world_fork_failure "/root"
             ["a.txt"; "missing.txt"] in
  stderr (o_parent o) = [StartFailure "a.txt"] /\
  map w_target (o_workers o) = ["missing.txt"] /\
  o_status o = Blocked.
Proof. vm_compute. repeat split. Qed.

(** C7, at the code: once a fork has failed, the wait loop still calls
    [sem_wait] once per file name, more often than there are children to
    post, and [main] never returns. *)
Theorem main_blocks_after_failed_fork (fl : flags) (w : world) (searchPath : string)
    (filenames : list string) (i : nat) :
  is_directory w searchPath = Returns true ->
  i < length filenames ->
  fork w i = None ->
  o_status (Myfind.main fl w searchPath filenames) = Blocked.
Proof.
  intros Hd Hi Hf.
  destruct (main_valid_root fl w searchPath filenames Hd) as (root & _ & ->). simpl.
  pose proof (spawn_lengths fl w searchPath root filenames 0) as Hl.
  pose proof (spawn_failure fl w searchPath root filenames 0 i Hi Hf) as He.
  set (n := length filenames) in *.
  destruct (n <=? _)%nat eqn:E; [|reflexivity].
  apply Nat.leb_le in E. destruct (sem_shared w); lia.
Qed.

Lemma main_blocks_after_failed_fork_witness :
  o_status (Myfind.main Sample.recursive_exact Sample.world_fork_failure "/root"
              ["a.txt"; "missing.txt"]) = Blocked.
Proof.
  apply (main_blocks_after_failed_fork Sample.recursive_exact Sample.world_fork_failure
           "/root" ["a.txt"; "missing.txt"] 0); [reflexivity | simpl; lia | reflexivity].
Defined.

(** ** Writes and the semaphore *)

Lemma guarded_scan_bracketed (fl : flags) (self : proc) (filename : string)
    (items : list item) (found : bool) (rest : list action) :
  bracketed (fst (fst (Guarded.scan fl self filename items found)) ++ rest)
  = bracketed rest.
Proof.
  revert found. induction items as [|[e|what] items IH]; intros found; simpl;
    try reflexivity.
  destruct (isMatchingFilename (caseInsensetiveSearch fl) (e_name e) filename).
  - specialize (IH true).
    destruct (Guarded.scan fl self filename items true) as [[tr f] exn].
    simpl in *. exact IH.
  - apply IH.
Qed.

Lemma forallb_is_write_founds (self : proc) (filename : string) (es : list entry) :
  forallb is_write (map (fun e => Out (found_of self filename e)) es) = true.
Proof. induction es; simpl; auto. Qed.

Lemma count_sem_wait_founds (self : proc) (filename : string) (es : list entry) :
  count is_sem_wait (map (fun e => Out (found_of self filename e)) es) = 0.
Proof. unfold count. induction es; simpl; auto. Qed.

(** C2, as the code has it: in the variant of part_003 that takes the
    semaphore every write to a stream stands between a [sem_wait] and a
    [sem_post]; in myfind.cpp a task never waits on the semaphore, it writes
    its lines and only then posts once. *)
Theorem writes_and_the_semaphore
    (fl : flags) (self : proc) (directory : string) (root : node) (filename : string) :
  bracketed (Guarded.searchForFile fl self directory root filename) = true /\
  count is_sem_wait (Myfind.searchForFile fl self directory root filename) = 0 /\
  exists writes,
    Myfind.searchForFile fl self directory root filename = writes ++ [SemPost] /\
    forallb is_write writes = true.
Proof.
  split; [|split].
  - unfold Guarded.searchForFile.
    pose proof (guarded_scan_bracketed fl self filename
                  (walk (recursiveSearchEnabled fl) directory root) false) as H.
    destruct (Guarded.scan fl self filename
                (walk (recursiveSearchEnabled fl) directory root) false)
      as [[tr found] exn].
    simpl in H. destruct exn; [|destruct found]; simpl; now rewrite H.
  - rewrite searchForFile_trace. simpl. rewrite count_app, count_sem_wait_founds.
    destruct (first_error _); [reflexivity|].
    destruct (hits _ _ _); reflexivity.
  - rewrite searchForFile_trace. simpl.
    set (items := walk (recursiveSearchEnabled fl) directory root).
    set (hs := hits (caseInsensetiveSearch fl) filename (visited items)).
    destruct (first_error items) as [what|].
    + exists (map (fun e => Out (found_of self filename e)) hs
              ++ [Err (WalkError directory what)]).
      rewrite <- app_assoc. split; [reflexivity|].
      now rewrite forallb_app, forallb_is_write_founds.
    + destruct hs as [|h hs'] eqn:E.
      * exists [Out (NotFound (pid self) filename (Path.absolute (cwd self) directory))].
        split; reflexivity.
      * rewrite <- E. exists (map (fun e => Out (found_of self filename e)) hs).
        split; [reflexivity | apply forallb_is_write_founds].
Qed.

(** The task of myfind.cpp writes both of its lines without holding the
    semaphore. *)
Lemma searchForFile_writes_unguarded :
  let tr := Myfind.searchForFile Sample.recursive_exact Sample.child
              "/root" Sample.tree "a.txt" in
  tr = [Out (Found 7 "a.txt" "/root/a.txt"); Out (Found 7 "a.txt" "/root/sub/a.txt");
        SemPost] /\
  bracketed tr = false.
Proof. vm_compute. split; reflexivity. Qed.

(** ** Files *)

Lemma quiet_app (a b : list action) : quiet (a ++ b) = quiet a && quiet b.
Proof. apply forallb_app. Qed.

Lemma quiet_run_store (tr : list action) (st : store) :
  quiet tr = true -> run_store tr st = st.
Proof.
  unfold run_store, quiet. revert st.
  induction tr as [|a tr IH]; intros st H; simpl in *; [reflexivity|].
  apply andb_prop in H. destruct H as [Ha Htr].
  destruct a; simpl in *; try discriminate; now apply IH.
Qed.

Lemma quiet_founds (self : proc) (filename : string) (es : list entry) :
  quiet (map (fun e => Out (found_of self filename e)) es) = true.
Proof. unfold quiet. induction es; simpl; auto. Qed.

Lemma searchForFile_quiet
    (fl : flags) (self : proc) (directory : string) (root : node) (filename : string) :
  quiet (Myfind.searchForFile fl self directory root filename) = true.
Proof.
  rewrite searchForFile_trace. simpl. rewrite quiet_app, quiet_founds.
  destruct (first_error _); [reflexivity|].
  destruct (hits _ _ _); reflexivity.
Qed.

Lemma spawn_quiet (fl : flags) (w : world) (searchPath : string) (root : node)
    (filenames : list string) (i : nat) :
  quiet (fst (Myfind.spawn fl w searchPath root filenames i)) = true /\
  quiet (flat_map w_trace (snd (Myfind.spawn fl w searchPath root filenames i))) = true.
Proof.
  revert i. induction filenames as [|f rest IH]; intros i; simpl; [split; reflexivity|].
  specialize (IH (S i)).
  destruct (Myfind.spawn fl w searchPath root rest (S i)) as [errs ws].
  destruct IH as [IH1 IH2].
  destruct (fork w i) as [child|]; simpl in *; split; auto.
  now rewrite quiet_app, searchForFile_quiet.
Qed.

Lemma sem_wait_all_quiet (n value posted : nat) :
  quiet (fst (Myfind.sem_wait_all n value posted)) = true.
Proof.
  revert value posted. induction n as [|n IH]; intros value posted; simpl; [reflexivity|].
  destruct value as [|v]; [destruct posted as [|p]; [reflexivity|]|].
  - specialize (IH 0 p). destruct (Myfind.sem_wait_all n 0 p). exact IH.
  - specialize (IH v posted). destruct (Myfind.sem_wait_all n v posted). exact IH.
Qed.

(** C9: no process of a run of myfind.cpp opens, writes or removes a file,
    so the files are after the run what they were before it. *)
Theorem main_leaves_files_alone (fl : flags) (w : world) (searchPath : string)
    (filenames : list string) (st : store) :
  quiet (all_actions (Myfind.main fl w searchPath filenames)) = true /\
  run_store (all_actions (Myfind.main fl w searchPath filenames)) st = st.
Proof.
  assert (Q : quiet (all_actions (Myfind.main fl w searchPath filenames)) = true).
  { destruct (main_root_cases fl w searchPath filenames) as [Hd | [-> | (what & ->)]].
    - destruct (main_valid_root fl w searchPath filenames Hd) as (root & _ & ->).
      unfold all_actions. simpl.
      destruct (spawn_quiet fl w searchPath root filenames 0) as [Q1 Q2].
      now rewrite !quiet_app, Q1, Q2, sem_wait_all_quiet.
    - reflexivity.
    - reflexivity. }
  split; [exact Q | now apply quiet_run_store].
Qed.

(** The variant of part_003 with temporary files does buffer in files: after
    the workers /tmp holds one file per child, which the parent copies to
    stdout and removes.  A diagnostic of the walk gets to stdout that way. *)
Lemma temp_file_variant_buffers_in_files :
  let o := TempFile.main Sample.recursive_exact Sample.world_ok (fun _ => true) []
             "/root" ["missing.txt"] in
  run_store (flat_map w_trace (o_workers o)) [] =
    [("/tmp/myfind_100.log", [NotFound 100 "missing.txt" "/root"])] /\
  o_parent o = [Out (NotFound 100 "missing.txt" "/root");
                FileRemove "/tmp/myfind_100.log"] /\
  quiet (all_actions o) = false.
Proof. vm_compute. repeat split. Qed.

Lemma temp_file_variant_mixes_diagnostics :
  let w := mkWorld (fun _ => Some Sample.faulty_tree) Sample.every_fork_succeeds
                   (mkProc 1 "/") false (fun _ => None) in
  let o := TempFile.main Sample.recursive_exact w (fun _ => true) []
             "/root" ["a.txt"] in
  stdout (o_parent o) = [WalkError "/root" "Input/output error"].
Proof. vm_compute. reflexivity. Qed.

(** ** The two scenarios of the specification

    /root/a.txt, /root/sub/a.txt and /root/b.log, targets a.txt and
    missing.txt, every fork succeeding. *)

Example scenario_recursive :
  map (fun wk => (w_pid wk, stdout (w_trace wk)))
      (o_workers (Myfind.main Sample.recursive_exact Sample.world_ok "/root"
                    ["a.txt"; "missing.txt"])) =
  [(100, [Found 100 "a.txt" "/root/a.txt"; Found 100 "a.txt" "/root/sub/a.txt"]);
   (101, [NotFound 101 "missing.txt" "/root"])].
Proof. reflexivity. Qed.

Example scenario_flat :
  map (fun wk => (w_pid wk, stdout (w_trace wk)))
      (o_workers (Myfind.main Sample.flat_exact Sample.world_ok "/root"
                    ["a.txt"; "missing.txt"])) =
  [(100, [Found 100 "a.txt" "/root/a.txt"]);
   (101, [NotFound 101 "missing.txt" "/root"])].
Proof. reflexivity. Qed.

(** * Further properties of the code *)

(** ** The matcher as a relation on names *)

Lemma strcasecmp_refl (a : list ascii) : CString.strcasecmp a a = 0%Z.
Proof.
  induction a as [|x a IH]; simpl; [reflexivity|].
  now rewrite Ascii.eqb_refl.
Qed.

Lemma matches_folded (a b : string) :
  isMatchingFilename true a b = true <->
  CString.fold_case (CString.c_str a) = CString.fold_case (CString.c_str b).
Proof.
  unfold isMatchingFilename. rewrite Z.eqb_eq.
  apply strcasecmp_zero; apply c_str_no_NUL.
Qed.

Lemma matches_sym (ci : bool) (a b : string) :
  isMatchingFilename ci a b = true -> isMatchingFilename ci b a = true.
Proof.
  destruct ci.
  - rewrite !matches_folded. auto.
  - simpl. rewrite !String.eqb_eq. auto.
Qed.

(** X1.  With either setting of [-i] the matcher is an equivalence on names:
    every name matches itself, the order of the two arguments does not
    matter, and names that match a common name match each other. *)
Theorem isMatchingFilename_equivalence (ci : bool) :
  (forall a, isMatchingFilename ci a a = true) /\
  (forall a b, isMatchingFilename ci a b = isMatchingFilename ci b a) /\
  (forall a b c, isMatchingFilename ci a b = true ->
                 isMatchingFilename ci b c = true ->
                 isMatchingFilename ci a c = true).
Proof.
  split; [|split].
  - intros a. destruct ci; simpl.
    + now rewrite strcasecmp_refl.
    + apply String.eqb_refl.
  - intros a b.
    destruct (isMatchingFilename ci a b) eqn:E1, (isMatchingFilename ci b a) eqn:E2;
      try reflexivity.
    + apply matches_sym in E1. congruence.
    + apply matches_sym in E2. congruence.
  - intros a b c. destruct ci.
    + rewrite !matches_folded. congruence.
    + simpl. rewrite !String.eqb_eq. congruence.
Qed.

Lemma exact_then_caseless (a b : string) :
  isMatchingFilename false a b = true -> isMatchingFilename true a b = true.
Proof.
  simpl. rewrite String.eqb_eq. intros ->.
  unfold isMatchingFilename. now rewrite strcasecmp_refl.
Qed.

(** X2.  A name accepted without [-i] is accepted with it, and not the other
    way round. *)
Theorem exact_match_is_caseless_match :
  (forall a b : string,
     isMatchingFilename false a b = true -> isMatchingFilename true a b = true) /\
  isMatchingFilename true "README" "readme" = true /\
  isMatchingFilename false "README" "readme" = false.
Proof.
  split; [|split; reflexivity].
  intros a b. simpl. rewrite String.eqb_eq. intros ->.
  unfold isMatchingFilename. rewrite strcasecmp_refl. reflexivity.
Qed.

(** ** What one task reports *)

Lemma in_founds_is_found (self : proc) (filename : string) (es : list entry) (ev : event) :
  In ev (map (found_of self filename) es) -> is_found ev = true.
Proof. intros H. apply in_map_iff in H. destruct H as (e & <- & _). reflexivity. Qed.

Lemma hits_exact_caseless (filename : string) (es : list entry) (e : entry) :
  In e (hits false filename es) -> In e (hits true filename es).
Proof.
  unfold hits. rewrite !filter_In. intros [H1 H2]. split; [exact H1|].
  now apply exact_then_caseless.
Qed.

(** The stdout of a task, by cases. *)
Lemma searchForFile_stdout_cases
    (fl : flags) (self : proc) (directory : string) (root : node) (filename : string) :
  let items := walk (recursiveSearchEnabled fl) directory root in
  let hs := hits (caseInsensetiveSearch fl) filename (visited items) in
  let evs := stdout (Myfind.searchForFile fl self directory root filename) in
  (first_error items = None /\ hs = [] /\
   evs = [NotFound (pid self) filename (Path.absolute (cwd self) directory)])
  \/ ((first_error items <> None \/ hs <> []) /\ evs = map (found_of self filename) hs).
Proof.
  intros items hs evs. subst evs. rewrite searchForFile_stdout. fold items. fold hs.
  destruct (first_error items) as [what|].
  - right. split; [left; discriminate | apply app_nil_r].
  - destruct hs as [|h hs'].
    + left. repeat split.
    + right. split; [right; discriminate | apply app_nil_r].
Qed.

(** X3.  With [-i] a task finds everything it finds without it, and when it
    reports "Not found" with [-i] it reports exactly that without it. *)
Theorem caseless_search_finds_more
    (recursive : bool) (self : proc) (directory : string) (root : node)
    (filename : string) :
  let exact := stdout (Myfind.searchForFile (mkFlags recursive false) self
                         directory root filename) in
  let caseless := stdout (Myfind.searchForFile (mkFlags recursive true) self
                            directory root filename) in
  (forall ev, is_found ev = true -> In ev exact -> In ev caseless) /\
  (In (NotFound (pid self) filename (Path.absolute (cwd self) directory)) caseless ->
   exact = caseless).
Proof.
  intros exact caseless. subst exact caseless.
  destruct (searchForFile_stdout_cases (mkFlags recursive false) self directory root filename)
    as [(E1 & H1 & ->) | (C1 & ->)];
  destruct (searchForFile_stdout_cases (mkFlags recursive true) self directory root filename)
    as [(E2 & H2 & ->) | (C2 & ->)]; simpl in *.
  - split; [intros ev Hf [<- | []]; discriminate Hf | reflexivity].
  - split; [intros ev Hf [<- | []]; discriminate Hf|].
    intros H. apply in_founds_is_found in H. discriminate H.
  - split.
    + intros ev _ H. apply in_map_iff in H. destruct H as (e & _ & He).
      apply hits_exact_caseless in He. rewrite H2 in He. destruct He.
    + intros _. destruct C1 as [C1 | C1]; [congruence|].
      exfalso. apply C1.
      destruct (hits false filename (visited (walk recursive directory root)))
        as [|e es] eqn:E; [reflexivity|].
      assert (In e (hits true filename (visited (walk recursive directory root))))
        by (apply hits_exact_caseless; rewrite E; now left).
      rewrite H2 in H. destruct H.
  - split.
    + intros ev _ H. apply in_map_iff in H. destruct H as (e & <- & He).
      apply in_map. now apply hits_exact_caseless.
    + intros H. apply in_founds_is_found in H. discriminate H.
Qed.

Lemma visited_all (items : list item) (e : entry) :
  first_error items = None -> In (Yield e) items -> In e (visited items).
Proof.
  induction items as [|[e'|what] rest IH]; simpl; intros HE H.
  - destruct H.
  - destruct H as [H | H]; [injection H as ->; now left | right; auto].
  - discriminate HE.
Qed.

Lemma visited_yielded (items : list item) (e : entry) :
  In e (visited items) -> In (Yield e) items.
Proof.
  induction items as [|[e'|what] rest IH]; simpl; intros H; try destruct H.
  - left. congruence.
  - right. auto.
Qed.

(** X4.  The "Not found" line is written exactly when the walk came to its end
    and no entry of it has a matching name. *)
Theorem not_found_is_truthful
    (fl : flags) (self : proc) (directory : string) (root : node) (filename : string) :
  let items := walk (recursiveSearchEnabled fl) directory root in
  In (NotFound (pid self) filename (Path.absolute (cwd self) directory))
     (stdout (Myfind.searchForFile fl self directory root filename))
  <->
  (first_error items = None /\
   forall e, In (Yield e) items ->
             isMatchingFilename (caseInsensetiveSearch fl) (e_name e) filename = false).
Proof.
  intros items. subst items.
  pose proof (searchForFile_stdout_cases fl self directory root filename) as Hc.
  simpl in Hc.
  set (items := walk (recursiveSearchEnabled fl) directory root) in *.
  destruct Hc as [(E & H & ->) | (C & ->)].
  - split; [|intros _; now left].
    intros _. split; [exact E|]. intros e He.
    apply (visited_all items e E) in He.
    destruct (isMatchingFilename (caseInsensetiveSearch fl) (e_name e) filename) eqn:M;
      [|reflexivity].
    assert (Hin : In e (hits (caseInsensetiveSearch fl) filename (visited items)))
      by (unfold hits; apply filter_In; auto).
    rewrite H in Hin. destruct Hin.
  - split.
    + intros H. apply in_founds_is_found in H. discriminate H.
    + intros [E Hno]. exfalso. destruct C as [C | C]; [congruence|].
      apply C.
      destruct (hits (caseInsensetiveSearch fl) filename (visited items))
        as [|e es] eqn:Eh; [reflexivity|].
      assert (Hin : In e (hits (caseInsensetiveSearch fl) filename (visited items)))
        by (rewrite Eh; now left).
      unfold hits in Hin. apply filter_In in Hin. destruct Hin as [Hv Hm].
      apply visited_yielded in Hv. rewrite (Hno e Hv) in Hm. discriminate Hm.
Qed.

(** ** The paths shown *)

Lemma absolute_is_absolute (cwd p : string) :
  Path.is_absolute cwd = true -> Path.is_absolute (Path.absolute cwd p) = true.
Proof.
  unfold Path.absolute, Path.append. intros H.
  destruct (Path.is_absolute p) eqn:E; [exact E|].
  destruct cwd as [|c r]; [discriminate H|].
  destruct (Path.ends_with_slash (String c r)); exact H.
Qed.

(** X5.  When the working directory of the process is an absolute path (as the
    system gives it), every path on the match stream of a task is absolute,
    also for a search path given relative. *)
Theorem searchForFile_shows_absolute_paths
    (fl : flags) (self : proc) (directory : string) (root : node) (filename : string) :
  Path.is_absolute (cwd self) = true ->
  Forall (fun ev => exists path,
                      shown_path ev = Some path /\ Path.is_absolute path = true)
         (stdout (Myfind.searchForFile fl self directory root filename)).
Proof.
  intros H.
  destruct (searchForFile_stdout_cases fl self directory root filename)
    as [(_ & _ & ->) | (_ & ->)].
  - constructor; [|constructor]. eexists. split; [reflexivity|].
    now apply absolute_is_absolute.
  - apply Forall_forall. intros ev Hev. apply in_map_iff in Hev.
    destruct Hev as (e & <- & _). eexists. split; [reflexivity|].
    now apply absolute_is_absolute.
Qed.

Lemma searchForFile_shows_absolute_paths_witness :
  Forall (fun ev => exists path,
                      shown_path ev = Some path /\ Path.is_absolute path = true)
         (stdout (Myfind.searchForFile Sample.recursive_exact (mkProc 7 "/home/user")
                    "data" Sample.tree "a.txt")).
Proof.
  apply (searchForFile_shows_absolute_paths Sample.recursive_exact
           (mkProc 7 "/home/user") "data" Sample.tree "a.txt").
  reflexivity.
Defined.

(** ** Flat and recursive search *)

Lemma first_error_app (a b : list item) :
  first_error (a ++ b) =
  match first_error a with
  | Some what => Some what
  | None => first_error b
  end.
Proof. induction a as [|[e|what] a IH]; simpl; auto. Qed.

Lemma visited_app (a b : list item) :
  first_error a = None -> visited (a ++ b) = visited a ++ visited b.
Proof.
  induction a as [|[e|what] a IH]; simpl; intros H; [reflexivity | | discriminate H].
  now rewrite IH.
Qed.

Lemma descend_head (parent : string) (n : node) :
  exists rest, descend parent n = Yield (entry_of parent n) :: rest.
Proof. destruct n; simpl; eexists; reflexivity. Qed.

(** A recursive walk that raises nothing passes every direct child. *)
Lemma children_in_recursive_walk (parent : string) (children : list node) (c : node) :
  first_error (flat_map (descend parent) children) = None ->
  In c children ->
  In (entry_of parent c) (visited (flat_map (descend parent) children)).
Proof.
  induction children as [|n rest IH]; simpl; intros HE Hin; [destruct Hin|].
  rewrite first_error_app in HE.
  destruct (first_error (descend parent n)) eqn:En; [discriminate HE|].
  rewrite (visited_app _ _ En). apply in_or_app.
  destruct Hin as [-> | Hin].
  - left. destruct (descend_head parent c) as (tl & ->). now left.
  - right. auto.
Qed.

Lemma flat_walk_in_recursive_walk (directory : string) (root : node) (e : entry) :
  first_error (walk true directory root) = None ->
  In e (visited (walk false directory root)) ->
  In e (visited (walk true directory root)).
Proof.
  unfold walk, recursive_directory_iterator, directory_iterator, open_dir.
  destruct root as [name|name|name [| |what] children]; simpl; auto.
  intros HE Hin.
  assert (exists c, In c children /\ e = entry_of directory c) as (c & Hc & ->).
  { clear HE. induction children as [|n rest IH]; simpl in Hin; [destruct Hin|].
    destruct Hin as [<- | Hin].
    - exists n. split; [now left | reflexivity].
    - destruct (IH Hin) as (c & Hc & ->). exists c. split; [now right | reflexivity]. }
  now apply children_in_recursive_walk.
Qed.

(** X6.  When the recursive walk of a directory raises nothing, a search with
    [-R] finds everything the search without it finds. *)
Theorem recursive_search_finds_more
    (ci : bool) (self : proc) (directory : string) (root : node) (filename : string) :
  first_error (walk true directory root) = None ->
  forall ev,
    is_found ev = true ->
    In ev (stdout (Myfind.searchForFile (mkFlags false ci) self directory root filename)) ->
    In ev (stdout (Myfind.searchForFile (mkFlags true ci) self directory root filename)).
Proof.
  intros HE ev Hf.
  rewrite !searchForFile_stdout.
  cbn [recursiveSearchEnabled caseInsensetiveSearch]. rewrite HE.
  intros H. apply in_app_or in H. apply in_or_app. left.
  destruct H as [H | H].
  - apply in_map_iff in H. destruct H as (e & <- & He). apply in_map.
    unfold hits in *. apply filter_In in He. apply filter_In.
    destruct He as [He Hm]. split; [|exact Hm].
    now apply flat_walk_in_recursive_walk.
  - exfalso.
    destruct (first_error (walk false directory root));
      [destruct H|].
    destruct (hits ci filename (visited (walk false directory root)));
      [|destruct H].
    destruct H as [<- | []]. discriminate Hf.
Qed.

Lemma recursive_search_finds_more_witness :
  In (Found 7 "a.txt" "/root/a.txt")
     (stdout (Myfind.searchForFile (mkFlags true false) Sample.child
                "/root" Sample.tree "a.txt")).
Proof.
  apply (recursive_search_finds_more false Sample.child "/root" Sample.tree "a.txt");
    [reflexivity | reflexivity | simpl; now left].
Defined.

(** Without that, it need not: the recursive walk ends at /root/bad, before
    the /root/a.txt that the flat search reports. *)
Lemma recursive_search_can_find_less :
  stdout (Myfind.searchForFile (mkFlags false false) Sample.child
            "/root" Sample.faulty_tree "a.txt") = [Found 7 "a.txt" "/root/a.txt"] /\
  stdout (Myfind.searchForFile (mkFlags true false) Sample.child
            "/root" Sample.faulty_tree "a.txt") = [].
Proof. vm_compute. split; reflexivity. Qed.

(** ** Directories that may not be read *)

(** Induction on a tree, with the property for every child of a
    directory. *)
Lemma node_induction (P : node -> Prop) :
  (forall name, P (File name)) ->
  (forall name, P (Special name)) ->
  (forall name acc children, Forall P children -> P (Dir name acc children)) ->
  forall n, P n.
Proof.
  intros HF HS HD. fix IH 1. intros [name|name|name acc children].
  - apply HF.
  - apply HS.
  - apply HD. induction children as [|c rest IHrest]; constructor.
    + apply IH.
    + exact IHrest.
Qed.

Lemma flat_map_no_error {A} (f : A -> list item) (l : list A) :
  Forall (fun x => first_error (f x) = None) l ->
  first_error (flat_map f l) = None.
Proof.
  induction 1 as [|x l Hx _ IH]; simpl; [reflexivity|].
  now rewrite first_error_app, Hx.
Qed.

Lemma descend_no_fault (n : node) :
  forall parent, no_fault n = true -> first_error (descend parent n) = None.
Proof.
  induction n as [name|name|name acc children IH] using node_induction;
    intros parent H; simpl; try reflexivity.
  destruct acc as [| |what]; simpl in *; [|reflexivity|discriminate H].
  apply flat_map_no_error.
  rewrite forallb_forall in H. rewrite Forall_forall in *.
  intros c Hc. apply IH; auto.
Qed.

Lemma walk_no_fault (recursive : bool) (directory : string) (root : node) :
  is_dir root = true -> no_fault root = true ->
  first_error (walk recursive directory root) = None.
Proof.
  destruct root as [name|name|name [| |what] children]; simpl; try discriminate;
    intros _ H.
  - destruct recursive; simpl.
    + apply flat_map_no_error. rewrite forallb_forall in H. apply Forall_forall.
      intros c Hc. apply descend_no_fault. auto.
    + induction children; simpl in *; auto.
      apply andb_prop in H. destruct H. auto.
  - destruct recursive; reflexivity.
Qed.

Lemma walk_opens_cleanly (recursive : bool) (directory : string) (root : node) :
  opens_cleanly recursive root = true ->
  first_error (walk recursive directory root) = None.
Proof.
  destruct root as [name|name|name [| |what] children]; simpl; try discriminate.
  - destruct recursive; simpl; intros H.
    + apply flat_map_no_error. rewrite forallb_forall in H. apply Forall_forall.
      intros c Hc. apply descend_no_fault. auto.
    + clear H. induction children; simpl; auto.
  - intros _. destruct recursive; reflexivity.
Qed.

(** X7.  Directories without read permission are passed over in silence:
    when every directory the walk opens (the root alone without [-R]) can
    be opened or is refused for lack of permission, a task writes nothing to
    stderr and ends with its [Found] lines or with the one "Not found"
    line. *)
Theorem permission_denied_is_no_error
    (fl : flags) (self : proc) (directory : string) (root : node) (filename : string) :
  opens_cleanly (recursiveSearchEnabled fl) root = true ->
  let tr := Myfind.searchForFile fl self directory root filename in
  stderr tr = [] /\
  (1 <= count is_found (stdout tr) \/
   stdout tr = [NotFound (pid self) filename (Path.absolute (cwd self) directory)]).
Proof.
  intros Hn tr. subst tr.
  pose proof (walk_opens_cleanly (recursiveSearchEnabled fl) directory root Hn) as E.
  rewrite searchForFile_stderr, searchForFile_stdout, E. split; [reflexivity|].
  destruct (hits _ _ _) as [|h hs]; [now right|].
  left. rewrite app_nil_r, count_found_founds. simpl. lia.
Qed.

(** A flat search of a tree with a subdirectory that fails to open: the
    subdirectory is never opened, /root/a.txt is found and nothing is said. *)
Lemma permission_denied_is_no_error_witness :
  let tr := Myfind.searchForFile Sample.flat_exact Sample.child "/root"
              Sample.faulty_tree "a.txt" in
  stderr tr = [] /\
  (1 <= count is_found (stdout tr) \/ stdout tr = [NotFound 7 "a.txt" "/root"]).
Proof.
  apply (permission_denied_is_no_error Sample.flat_exact Sample.child "/root"
           Sample.faulty_tree "a.txt"); reflexivity.
Defined.

(** With [-R], a directory that may not be read and holds an a.txt:
    /root/a.txt is found, nothing is said about the other. *)
Example permission_denied_recursive :
  Myfind.searchForFile Sample.recursive_exact Sample.child "/root"
    (Dir "root" Readable [Dir "secret" Denied [File "a.txt"]; File "a.txt"]) "a.txt"
  = [Out (Found 7 "a.txt" "/root/a.txt"); SemPost].
Proof. reflexivity. Qed.

(** ** Children and targets *)

Lemma spawn_targets (fl : flags) (w : world) (searchPath : string) (root : node)
    (filenames : list string) (i : nat) :
  map (fun wk => (w_pid wk, w_target wk))
      (snd (Myfind.spawn fl w searchPath root filenames i))
    = started (fork w) filenames i /\
  fst (Myfind.spawn fl w searchPath root filenames i)
    = map (fun f => Err (StartFailure f)) (not_started (fork w) filenames i).
Proof.
  revert i. induction filenames as [|f rest IH]; intros i; simpl; [split; reflexivity|].
  specialize (IH (S i)).
  destruct (Myfind.spawn fl w searchPath root rest (S i)) as [errs ws].
  destruct IH as [IH1 IH2]. simpl in *.
  destruct (fork w i); simpl; split; congruence.
Qed.

Lemma sem_wait_all_streams (n value posted : nat) :
  stdout (fst (Myfind.sem_wait_all n value posted)) = [] /\
  stderr (fst (Myfind.sem_wait_all n value posted)) = [].
Proof.
  revert value posted. induction n as [|n IH]; intros value posted; simpl;
    [split; reflexivity|].
  destruct value as [|v]; [destruct posted as [|p]; [split; reflexivity|]|].
  - specialize (IH 0 p). destruct (Myfind.sem_wait_all n 0 p). exact IH.
  - specialize (IH v posted). destruct (Myfind.sem_wait_all n v posted). exact IH.
Qed.

Lemma stderr_map_Err {A} (f : A -> event) (l : list A) :
  stderr (map (fun x => Err (f x)) l) = map f l.
Proof. induction l; simpl; congruence. Qed.

Lemma stdout_map_Err {A} (f : A -> event) (l : list A) :
  stdout (map (fun x => Err (f x)) l) = [].
Proof. induction l; simpl; congruence. Qed.

(** C6, as the code has it: past the check of the search path [main] never
    returns a failure code and is not ended by an exception; a fork that
    failed is only reported, one line on stderr per target, and the other
    targets still get their child, whatever is found. *)
Theorem main_returns_only_success (fl : flags) (w : world) (searchPath : string)
    (filenames : list string) :
  is_directory w searchPath = Returns true ->
  let o := Myfind.main fl w searchPath filenames in
  (forall code, o_status o = Exit code -> code = 0%Z) /\
  (forall what, o_status o <> Aborted what) /\
  stderr (o_parent o) = map StartFailure (not_started (fork w) filenames 0) /\
  map w_target (o_workers o) = map snd (started (fork w) filenames 0).
Proof.
  intros Hd o. subst o.
  destruct (main_valid_root fl w searchPath filenames Hd) as (root & _ & ->). simpl.
  destruct (spawn_targets fl w searchPath root filenames 0) as [H1 H2].
  split; [|split; [|split]].
  - intros code. destruct (length filenames <=? _)%nat; intros H;
      [injection H as <-; reflexivity | discriminate H].
  - intros what. destruct (length filenames <=? _)%nat; discriminate.
  - rewrite H2, stderr_app, (stderr_map_Err StartFailure).
    destruct (sem_wait_all_streams (length filenames) 0
                (if sem_shared w
                 then length (snd (Myfind.spawn fl w searchPath root filenames 0))
                 else 0)) as [_ ->].
    apply app_nil_r.
  - rewrite <- H1, map_map. reflexivity.
Qed.

Lemma main_returns_only_success_witness :
  let o := Myfind.main Sample.recursive_exact Sample.world_fork_failure "/root"
             ["a.txt"; "missing.txt"] in
  (forall code, o_status o = Exit code -> code = 0%Z) /\
  (forall what, o_status o <> Aborted what) /\
  stderr (o_parent o) = [StartFailure "a.txt"] /\
  map w_target (o_workers o) = ["missing.txt"].
Proof.
  apply (main_returns_only_success Sample.recursive_exact Sample.world_fork_failure
           "/root" ["a.txt"; "missing.txt"]).
  reflexivity.
Defined.

Lemma spawn_workers (fl : flags) (w : world) (searchPath : string) (root : node)
    (filenames : list string) (i : nat) :
  snd (Myfind.spawn fl w searchPath root filenames i) =
  map (fun j => mkWorker (fst j) (snd j)
                  (Myfind.searchForFile fl (mkProc (fst j) (cwd (parent w)))
                     searchPath root (snd j)))
      (started (fork w) filenames i).
Proof.
  revert i. induction filenames as [|f rest IH]; intros i; simpl; [reflexivity|].
  specialize (IH (S i)).
  destruct (Myfind.spawn fl w searchPath root rest (S i)) as [errs ws].
  simpl in IH. destruct (fork w i); simpl; congruence.
Qed.

(** X8.  Past the check of the search path every target is dealt with once,
    in the order of the command line: for a target whose [fork] succeeded
    there is a child with the pid [fork] returned, and what that child does
    is [searchForFile] for that target below the search path; for a target
    whose [fork] failed its name is written to stderr.  The parent writes
    nothing else and nothing to stdout. *)
Theorem main_one_child_per_target (fl : flags) (w : world) (searchPath : string)
    (root : node) (filenames : list string) :
  resolve w searchPath = Some root ->
  is_directory w searchPath = Returns true ->
  let o := Myfind.main fl w searchPath filenames in
  o_workers o =
    map (fun j => mkWorker (fst j) (snd j)
                    (Myfind.searchForFile fl (mkProc (fst j) (cwd (parent w)))
                       searchPath root (snd j)))
        (started (fork w) filenames 0) /\
  stderr (o_parent o) = map StartFailure (not_started (fork w) filenames 0) /\
  stdout (o_parent o) = [] /\
  length (o_workers o) + length (stderr (o_parent o)) = length filenames.
Proof.
  intros Hr Hd o. subst o.
  destruct (main_valid_root fl w searchPath filenames Hd) as (root' & Hr' & ->).
  assert (root' = root) by congruence. subst root'. simpl.
  destruct (spawn_targets fl w searchPath root filenames 0) as [_ H2].
  pose proof (spawn_lengths fl w searchPath root filenames 0) as Hl.
  rewrite H2 in *. rewrite stderr_app, stdout_app.
  rewrite (stderr_map_Err StartFailure), (stdout_map_Err StartFailure).
  destruct (sem_wait_all_streams (length filenames) 0
              (if sem_shared w
               then length (snd (Myfind.spawn fl w searchPath root filenames 0))
               else 0)) as [-> ->].
  rewrite app_nil_r, length_map in *.
  split; [apply spawn_workers | repeat split; auto; lia].
Qed.

Lemma main_one_child_per_target_witness :
  let o := Myfind.main Sample.recursive_exact Sample.world_fork_failure "/root"
             ["a.txt"; "b.log"; "missing.txt"] in
  o_workers o =
    [mkWorker 101 "b.log" [Out (Found 101 "b.log" "/root/b.log"); SemPost];
     mkWorker 102 "missing.txt" [Out (NotFound 102 "missing.txt" "/root"); SemPost]] /\
  stderr (o_parent o) = [StartFailure "a.txt"] /\
  stdout (o_parent o) = [] /\
  length (o_workers o) + length (stderr (o_parent o)) = 3.
Proof.
  apply (main_one_child_per_target Sample.recursive_exact Sample.world_fork_failure
           "/root" Sample.tree ["a.txt"; "b.log"; "missing.txt"]); reflexivity.
Defined.

Lemma searchForFile_attributed
    (fl : flags) (self : proc) (directory : string) (root : node) (filename : string) :
  Forall (fun ev => attributed (pid self) filename ev = true)
         (stdout (Myfind.searchForFile fl self directory root filename)).
Proof.
  assert (A : (Nat.eqb (pid self) (pid self)
               && String.eqb filename filename)%bool = true)
    by (now rewrite Nat.eqb_refl, String.eqb_refl).
  destruct (searchForFile_stdout_cases fl self directory root filename)
    as [(_ & _ & ->) | (_ & ->)].
  - constructor; [|constructor]. exact A.
  - apply Forall_forall. intros ev Hev. apply in_map_iff in Hev.
    destruct Hev as (e & <- & _). exact A.
Qed.

(** X9.  Every line a child writes to the match stream bears the pid of that
    child and the target it was forked for. *)
Theorem main_lines_are_attributed (fl : flags) (w : world) (searchPath : string)
    (filenames : list string) :
  Forall (fun wk => Forall (fun ev => attributed (w_pid wk) (w_target wk) ev = true)
                           (stdout (w_trace wk)))
         (o_workers (Myfind.main fl w searchPath filenames)).
Proof.
  destruct (main_root_cases fl w searchPath filenames) as [Hd | [-> | (what & ->)]];
    [|constructor|constructor].
  - destruct (main_valid_root fl w searchPath filenames Hd) as (root & _ & ->). simpl.
    generalize 0 as i. induction filenames as [|f rest IH]; intros i; simpl;
      [constructor|].
    specialize (IH (S i)).
    destruct (Myfind.spawn fl w searchPath root rest (S i)) as [errs ws].
    destruct (fork w i) as [child|]; simpl in *; [|exact IH].
    constructor; [|exact IH]. simpl.
    apply (searchForFile_attributed fl (mkProc child (cwd (parent w)))).
Qed.

(** ** When the parent returns *)

(** X10.  Past the check of the search path [main] returns (with 0) exactly when
    there is no target at all, or every fork succeeded and the posts of the
    children reach the semaphore the parent waits on. *)
Theorem main_returns_iff (fl : flags) (w : world) (searchPath : string)
    (filenames : list string) :
  is_directory w searchPath = Returns true ->
  (o_status (Myfind.main fl w searchPath filenames) = Exit 0 <->
   filenames = [] \/
   (sem_shared w = true /\ forall i, i < length filenames -> fork w i <> None)).
Proof.
  intros Hd.
  destruct (main_valid_root fl w searchPath filenames Hd) as (root & _ & ->). simpl.
  pose proof (spawn_lengths fl w searchPath root filenames 0) as Hl.
  set (n := length filenames) in *.
  split.
  - destruct (n <=? _)%nat eqn:E; [|discriminate]. intros _.
    apply Nat.leb_le in E.
    destruct filenames as [|f rest]; [now left|]. right.
    destruct (sem_shared w); [|simpl in n; lia].
    split; [reflexivity|]. intros i Hi Hf.
    pose proof (spawn_failure fl w searchPath root (f :: rest) 0 i Hi Hf). lia.
  - intros [-> | [Hs Hall]]; [reflexivity|].
    rewrite Hs.
    rewrite (spawn_all_started fl w searchPath root filenames 0) in Hl by exact Hall.
    simpl in Hl. rewrite Hl, Nat.leb_refl. reflexivity.
Qed.

(** With the semaphore as the program has it the parent of a run with a
    target never returns; it would with a semaphore shared with the
    children. *)
Example main_private_and_shared_semaphore :
  o_status (Myfind.main Sample.recursive_exact Sample.world_ok "/root" ["a.txt"])
    = Blocked /\
  o_status (Myfind.main Sample.recursive_exact Sample.world_shared "/root" ["a.txt"])
    = Exit 0.
Proof. split; reflexivity. Qed.

Lemma main_returns_iff_witness :
  o_status (Myfind.main Sample.recursive_exact Sample.world_ok "/root"
              ["a.txt"; "missing.txt"]) = Exit 0 <->
  (["a.txt"; "missing.txt"] = [] \/
   (sem_shared Sample.world_ok = true /\
    forall i, i < length ["a.txt"; "missing.txt"] -> fork Sample.world_ok i <> None)).
Proof.
  apply (main_returns_iff Sample.recursive_exact Sample.world_ok "/root"
           ["a.txt"; "missing.txt"]).
  reflexivity.
Defined.

(** ** The options *)

Lemma occurrences_cons (c x : ascii) (opts : list ascii) :
  Options.occurrences c (x :: opts) =
  Nat.b2n (Ascii.eqb x c) + Options.occurrences c opts.
Proof.
  unfold Options.occurrences, count. simpl. rewrite (Ascii.eqb_sym c x).
  destruct (Ascii.eqb x c); reflexivity.
Qed.

(** One turn of the switch. *)
Lemma step_spec (st : Options.parse_state) (x : ascii) :
  let xR := Ascii.eqb x Options.opt_R in
  let xI := Ascii.eqb x Options.opt_i in
  Options.recursiveOptionUsed (Options.step st x)
    = (Options.recursiveOptionUsed st || xR)%bool /\
  Options.caseInsensitiveOptionUsed (Options.step st x)
    = (Options.caseInsensitiveOptionUsed st || xI)%bool /\
  recursiveSearchEnabled (Options.p_flags (Options.step st x))
    = (recursiveSearchEnabled (Options.p_flags st) || xR)%bool /\
  caseInsensetiveSearch (Options.p_flags (Options.step st x))
    = (caseInsensetiveSearch (Options.p_flags st) || xI)%bool /\
  Options.optionError (Options.step st x)
    = (Options.optionError st || Options.unknown x
       || (xR && Options.recursiveOptionUsed st)
       || (xI && Options.caseInsensitiveOptionUsed st))%bool /\
  (Options.optionError (Options.step st x) = false ->
   Options.p_notices (Options.step st x) = Options.p_notices st) /\
  (xR && xI)%bool = false.
Proof.
  intros xR xI. subst xR xI. unfold Options.step, Options.unknown.
  destruct (Ascii.eqb x Options.opt_R) eqn:ER.
  - assert (EI : Ascii.eqb x Options.opt_i = false)
      by (apply Ascii.eqb_eq in ER; subst x; reflexivity).
    rewrite EI. destruct st as [e ru cu [fr fc] ns]. simpl.
    destruct e, ru, cu, fr, fc; repeat split; try discriminate;
      intros _; apply app_nil_r.
  - destruct (Ascii.eqb x Options.opt_i) eqn:EI;
      destruct st as [e ru cu [fr fc] ns]; simpl;
      destruct e, ru, cu, fr, fc; repeat split; try discriminate;
      intros _; apply app_nil_r.
Qed.

(** The option loop started in any state. *)
Lemma parse_from (opts : list ascii) (st : Options.parse_state) :
  let st' := fold_left Options.step opts st in
  let r := Nat.b2n (Options.recursiveOptionUsed st)
           + Options.occurrences Options.opt_R opts in
  let i := Nat.b2n (Options.caseInsensitiveOptionUsed st)
           + Options.occurrences Options.opt_i opts in
  Options.recursiveOptionUsed st' = (0 <? r)%nat /\
  Options.caseInsensitiveOptionUsed st' = (0 <? i)%nat /\
  recursiveSearchEnabled (Options.p_flags st') =
    (recursiveSearchEnabled (Options.p_flags st)
     || (0 <? Options.occurrences Options.opt_R opts)%nat)%bool /\
  caseInsensetiveSearch (Options.p_flags st') =
    (caseInsensetiveSearch (Options.p_flags st)
     || (0 <? Options.occurrences Options.opt_i opts)%nat)%bool /\
  Options.optionError st' =
    (Options.optionError st || existsb Options.unknown opts
     || (2 <=? r)%nat || (2 <=? i)%nat)%bool /\
  (Options.optionError st' = false -> Options.p_notices st' = Options.p_notices st).
Proof.
  revert st. induction opts as [|x opts IH]; intros st.
  - simpl. destruct st as [e ru cu [fr fc] ns]; simpl.
    destruct e, ru, cu, fr, fc; repeat split; reflexivity.
  - specialize (IH (Options.step st x)). cbv zeta in *.
    change (fold_left Options.step (x :: opts) st)
      with (fold_left Options.step opts (Options.step st x)).
    rewrite !occurrences_cons.
    change (existsb Options.unknown (x :: opts))
      with (Options.unknown x || existsb Options.unknown opts)%bool.
    destruct (step_spec st x) as (S1 & S2 & S3 & S4 & S5 & S6 & S7).
    cbv zeta in *.
    destruct IH as (H1 & H2 & H3 & H4 & H5 & H6).
    rewrite S1 in H1, H5. rewrite S2 in H2, H5. rewrite S3 in H3. rewrite S4 in H4.
    rewrite S5 in H5.
    set (st' := fold_left Options.step opts (Options.step st x)) in *.
    set (nR := Options.occurrences Options.opt_R opts) in *.
    set (nI := Options.occurrences Options.opt_i opts) in *.
    set (u := existsb Options.unknown opts) in *.
    assert (U : Options.unknown x = (negb (Ascii.eqb x Options.opt_R)
                                     && negb (Ascii.eqb x Options.opt_i))%bool)
      by reflexivity.
    rewrite U in *. clear U.
    set (xR := Ascii.eqb x Options.opt_R) in *.
    set (xI := Ascii.eqb x Options.opt_i) in *.
    set (e := Options.optionError st) in *.
    set (ru := Options.recursiveOptionUsed st) in *.
    set (cu := Options.caseInsensitiveOptionUsed st) in *.
    rewrite H1, H2, H3, H4, H5.
    split; [|split; [|split; [|split; [|split]]]].
    + destruct ru, xR; reflexivity.
    + destruct cu, xI; reflexivity.
    + destruct (recursiveSearchEnabled (Options.p_flags st)), xR; try reflexivity;
        destruct nR; reflexivity.
    + destruct (caseInsensetiveSearch (Options.p_flags st)), xI; try reflexivity;
        destruct nI; reflexivity.
    + destruct e, ru, cu, xR, xI, u; try discriminate S7;
        destruct nR as [|[|?]], nI as [|[|?]]; reflexivity.
    + intros HE. rewrite H6 by (rewrite H5; exact HE). apply S6.
      rewrite S5.
      destruct e, ru, cu, xR, xI; try reflexivity; try discriminate S7;
        simpl in HE; discriminate HE.
Qed.

Lemma parse_initial (opts : list ascii) :
  Options.p_flags (Options.parse opts) =
    mkFlags (0 <? Options.occurrences Options.opt_R opts)%nat
            (0 <? Options.occurrences Options.opt_i opts)%nat /\
  Options.optionError (Options.parse opts) =
    (existsb Options.unknown opts
     || (2 <=? Options.occurrences Options.opt_R opts)%nat
     || (2 <=? Options.occurrences Options.opt_i opts)%nat)%bool /\
  (Options.optionError (Options.parse opts) = false ->
   Options.p_notices (Options.parse opts) = []).
Proof.
  destruct (parse_from opts Options.initial) as (_ & _ & H3 & H4 & H5 & H6).
  unfold Options.parse. split; [|split; [exact H5 | exact H6]].
  destruct (Options.p_flags (fold_left Options.step opts Options.initial)) as [fr fc].
  simpl in H3, H4. congruence.
Qed.

(** X11.  After the option loop the two flags say whether [-R] and [-i] occurred,
    and [optionError] is set exactly when an unknown option occurred or one
    of the two occurred more than once. *)
Theorem parse_options_spec (opts : list ascii) :
  Options.p_flags (Options.parse opts) =
    mkFlags (0 <? Options.occurrences Options.opt_R opts)%nat
            (0 <? Options.occurrences Options.opt_i opts)%nat /\
  Options.optionError (Options.parse opts) =
    (existsb Options.unknown opts
     || (2 <=? Options.occurrences Options.opt_R opts)%nat
     || (2 <=? Options.occurrences Options.opt_i opts)%nat)%bool.
Proof.
  destruct (parse_initial opts) as (H1 & H2 & _). split; assumption.
Qed.

(** X12.  [main] as a whole: it returns EXIT_FAILURE before anything is forked
    when an option is unknown or repeated, when no search path is left, or
    when the word before the search path is a dash with more than one
    letter; otherwise it writes no notice and searches below the first
    remaining argument for the others, with the flags of the options. *)
Theorem main_startup (w : world) (argv : list string) (g : Options.getopt_run) :
  let opts := Options.g_opts g in
  let optind := Options.g_optind g in
  let bad :=
    (existsb Options.unknown opts
     || (2 <=? Options.occurrences Options.opt_R opts)%nat
     || (2 <=? Options.occurrences Options.opt_i opts)%nat
     || (length argv <=? optind)%nat
     || ((1 <? optind)%nat && Options.long_dash_word (nth (optind - 1) argv "")))%bool in
  Options.main w argv g =
  if bad then
    (fst (Options.arguments argv g), mkOutcome (Exit EXIT_FAILURE) [] [])
  else
    ([],
     Myfind.main (mkFlags (0 <? Options.occurrences Options.opt_R opts)%nat
                          (0 <? Options.occurrences Options.opt_i opts)%nat)
                 w (nth optind argv "") (skipn (S optind) argv)).
Proof.
  intros opts optind bad. subst bad.
  destruct (parse_initial opts) as (Hf & He & Hn).
  unfold Options.main, Options.arguments. fold opts optind.
  rewrite <- He, Hf.
  destruct (Options.optionError (Options.parse opts)) eqn:E; simpl; [reflexivity|].
  destruct (length argv <=? optind)%nat; simpl; [reflexivity|].
  destruct ((1 <? optind)%nat && Options.long_dash_word (nth (optind - 1) argv ""))%bool;
    simpl; [reflexivity|].
  now rewrite Hn.
Qed.

(** "myfind -R -i /root a.txt" is run; "myfind -Ri /root a.txt" is not, and
    neither is a second "-R". *)
Example main_startup_samples :
  Options.main Sample.world_ok ["myfind"; "-R"; "-i"; "/root"; "a.txt"]
               (Options.mkGetopt ["R"; "i"]%char 3)
    = ([], Myfind.main (mkFlags true true) Sample.world_ok "/root" ["a.txt"]) /\
  Options.main Sample.world_ok ["myfind"; "-Ri"; "/root"; "a.txt"]
               (Options.mkGetopt ["R"; "i"]%char 2)
    = ([Options.Combined], mkOutcome (Exit EXIT_FAILURE) [] []) /\
  Options.main Sample.world_ok ["myfind"; "-R"; "-R"; "/root"; "a.txt"]
               (Options.mkGetopt ["R"; "R"]%char 3)
    = ([Options.RepeatedR; Options.Usage "myfind"], mkOutcome (Exit EXIT_FAILURE) [] []).
Proof. repeat split. Qed.

(** ** The semaphore of the variant with the guarded writes *)




(** The task of myfind.cpp, whose semaphore starts at 0, only posts: it
    never has to wait and leaves the semaphore at 1. *)
Lemma searchForFile_sem
    (fl : flags) (self : proc) (directory : string) (root : node) (filename : string) :
  sem_run 0 (Myfind.searchForFile fl self directory root filename) = Some 1.
Proof.
  rewrite searchForFile_trace. simpl.
  set (hs := hits _ _ _).
  assert (H : forall rest, sem_run 0 (map (fun e => Out (found_of self filename e)) hs
                                      ++ rest) = sem_run 0 rest)
    by (intros rest; induction hs; simpl; auto).
  rewrite H. destruct (first_error _); [reflexivity|]. destruct hs; reflexivity.
Qed.

(** ** Temporary files *)

Lemma bytes_append (a b : string) :
  CString.bytes (a ++ b) = CString.bytes a ++ CString.bytes b.
Proof. induction a as [|c a IH]; simpl; congruence. Qed.

Lemma bytes_inj (a b : string) : CString.bytes a = CString.bytes b -> a = b.
Proof.
  revert b. induction a as [|c a IH]; intros [|d b] H; simpl in H;
    try discriminate; [reflexivity|].
  injection H as -> H. f_equal. auto.
Qed.

Lemma show_pid_inj (m n : nat) : show_pid m = show_pid n -> m = n.
Proof.
  unfold show_pid. intros H.
  apply Unsigned.to_uint_inj.
  assert (E : Some (Nat.to_uint m) = Some (Nat.to_uint n))
    by (rewrite <- !NilEmpty.usu; now rewrite H).
  now injection E.
Qed.

(** Two children never share a temporary file: the name tells the pid. *)
Lemma temp_name_inj (m n : nat) :
  TempFile.temp_name m = TempFile.temp_name n -> m = n.
Proof.
  unfold TempFile.temp_name. intros H.
  apply show_pid_inj, bytes_inj.
  apply (f_equal CString.bytes) in H. rewrite !bytes_append in H.
  apply app_inv_head in H. now apply app_inv_tail in H.
Qed.

(** *** The store under the actions *)

Lemma lookup_remove (p q : string) (st : store) :
  lookup p (remove q st) = if String.eqb q p then None else lookup p st.
Proof.
  induction st as [|[r c] st IH]; simpl.
  - now destruct (String.eqb q p).
  - destruct (String.eqb r q) eqn:Erq.
    + apply String.eqb_eq in Erq. subst r. rewrite IH.
      destruct (String.eqb q p); reflexivity.
    + simpl. destruct (String.eqb r p) eqn:Erp; [|exact IH].
      apply String.eqb_eq in Erp. subst p. rewrite (String.eqb_sym q r), Erq.
      reflexivity.
Qed.

Lemma lookup_append_to (p q : string) (ev : event) (st : store) :
  lookup p (append_to q ev st) =
  if String.eqb q p then option_map (fun c => c ++ [ev]) (lookup p st)
  else lookup p st.
Proof.
  induction st as [|[r c] st IH]; simpl.
  - now destruct (String.eqb q p).
  - destruct (String.eqb r q) eqn:Erq; simpl.
    + apply String.eqb_eq in Erq. subst r.
      destruct (String.eqb q p); reflexivity.
    + destruct (String.eqb r p) eqn:Erp; [|exact IH].
      apply String.eqb_eq in Erp. subst p. rewrite (String.eqb_sym q r), Erq.
      reflexivity.
Qed.

Lemma lookup_exec_other (p : string) (a : action) (st : store) :
  file_of a <> Some p -> lookup p (exec st a) = lookup p st.
Proof.
  destruct a as [ev|ev| | |q|q ev|q]; simpl; intros H; try reflexivity.
  - rewrite lookup_remove.
    destruct (String.eqb q p) eqn:E; [apply String.eqb_eq in E; congruence|reflexivity].
  - rewrite lookup_append_to.
    destruct (String.eqb q p) eqn:E; [apply String.eqb_eq in E; congruence|reflexivity].
  - rewrite lookup_remove.
    destruct (String.eqb q p) eqn:E; [apply String.eqb_eq in E; congruence|reflexivity].
Qed.

Lemma lookup_run_other (p : string) (tr : list action) (st : store) :
  Forall (fun a => file_of a <> Some p) tr ->
  lookup p (run_store tr st) = lookup p st.
Proof.
  unfold run_store. revert st. induction tr as [|a tr IH]; intros st H; simpl;
    [reflexivity|].
  inversion H; subst. rewrite IH by assumption. now apply lookup_exec_other.
Qed.

Lemma run_store_app (a b : list action) (st : store) :
  run_store (a ++ b) st = run_store b (run_store a st).
Proof. unfold run_store. apply fold_left_app. Qed.



(** *** The child and its file *)

Lemma tempfile_scan_spec (fl : flags) (self : proc) (filename out : string)
    (items : list item) (found : bool) :
  TempFile.scan fl self filename out items found =
  (map (fun e => FileWrite out (found_of self filename e))
       (hits (caseInsensetiveSearch fl) filename (visited items)),
   found || negb (Nat.eqb (length (hits (caseInsensetiveSearch fl) filename
                                        (visited items))) 0),
   first_error items).
Proof.
  revert found. induction items as [|[e|what] rest IH]; intros found; simpl.
  - now rewrite orb_false_r.
  - unfold hits in *. simpl.
    destruct (isMatchingFilename (caseInsensetiveSearch fl) (e_name e) filename).
    + rewrite IH. simpl. now rewrite orb_true_r.
    + apply IH.
  - now rewrite orb_false_r.
Qed.

(** A child whose file opened writes to it what the child of myfind.cpp
    writes to its two streams. *)
Lemma tempfile_task_trace
    (fl : flags) (self : proc) (directory : string) (root : node)
    (filename out : string) :
  TempFile.searchForFile fl self true directory root filename out =
  file_trace (out, report fl self directory root filename).
Proof.
  unfold TempFile.searchForFile, file_trace, report. simpl.
  rewrite tempfile_scan_spec, searchForFile_stdout, searchForFile_stderr.
  set (items := walk (recursiveSearchEnabled fl) directory root).
  set (hs := hits (caseInsensetiveSearch fl) filename (visited items)).
  f_equal. rewrite !map_app, map_map.
  destruct (first_error items) as [what|]; simpl.
  - now rewrite app_nil_r.
  - destruct hs; simpl; now rewrite ?app_nil_r.
Qed.


(** *** The read-back loop *)


(** *** The run *)

Lemma tempfile_spawn_spec (fl : flags) (w : world) (can_open : string -> bool)
    (searchPath : string) (root : node) (filenames : list string) (i : nat) :
  let errs := fst (fst (TempFile.spawn fl w can_open searchPath root filenames i)) in
  let ws := snd (fst (TempFile.spawn fl w can_open searchPath root filenames i)) in
  let tmps := snd (TempFile.spawn fl w can_open searchPath root filenames i) in
  tmps = map (fun j => TempFile.temp_name (fst j)) (started (fork w) filenames i) /\
  errs = map (fun f => Err (StartFailure f)) (not_started (fork w) filenames i) /\
  ws = map (fun j =>
              mkWorker (fst j) (snd j)
                (TempFile.searchForFile fl (mkProc (fst j) (cwd (parent w)))
                   (can_open (TempFile.temp_name (fst j))) searchPath root (snd j)
                   (TempFile.temp_name (fst j))))
           (started (fork w) filenames i).
Proof.
  revert i. induction filenames as [|f rest IH]; intros i; simpl;
    [repeat split|].
  specialize (IH (S i)). cbv zeta in IH.
  destruct (TempFile.spawn fl w can_open searchPath root rest (S i)) as [[errs ws] tmps].
  simpl in IH. destruct IH as (H1 & H2 & H3).
  destruct (fork w i) as [child|]; simpl; repeat split; congruence.
Qed.

Lemma tempfile_main_valid_root (fl : flags) (w : world) (can_open : string -> bool)
    (st : store) (searchPath : string) (filenames : list string) :
  is_directory w searchPath = Returns true ->
  exists root,
    resolve w searchPath = Some root /\
    TempFile.main fl w can_open st searchPath filenames =
    let sp := TempFile.spawn fl w can_open searchPath root filenames 0 in
    mkOutcome (Exit 0)
      (fst (fst sp)
       ++ TempFile.read_back (snd sp) (run_store (flat_map w_trace (snd (fst sp))) st))
      (snd (fst sp)).
Proof.
  intros Hd. apply is_directory_true in Hd.
  destruct Hd as (Hn & name & acc & children & Hr).
  unfold TempFile.main. rewrite Hn, Hr.
  exists (Dir name acc children). split; [reflexivity|].
  set (root := Dir name acc children). simpl.
  destruct (TempFile.spawn fl w can_open searchPath root filenames 0) as [[errs ws] tmps].
  reflexivity.
Qed.



(** *** What the parent copies to stdout *)

Lemma lookup_run_writes (p : string) (evs c : list event) (st : store) :
  lookup p st = Some c ->
  lookup p (run_store (map (FileWrite p) evs) st) = Some (c ++ evs).
Proof.
  unfold run_store. revert c st. induction evs as [|ev evs IH]; intros c st H; simpl.
  - now rewrite app_nil_r.
  - rewrite (IH (c ++ [ev])); [now rewrite <- app_assoc|].
    rewrite lookup_append_to, String.eqb_refl, H. reflexivity.
Qed.

Lemma lookup_file_trace (job : string * list event) (st : store) :
  lookup (fst job) (run_store (file_trace job) st) = Some (snd job).
Proof.
  unfold file_trace.
  change (run_store (FileOpen (fst job) :: map (FileWrite (fst job)) (snd job)) st)
    with (run_store (map (FileWrite (fst job)) (snd job)) (exec st (FileOpen (fst job)))).
  apply (lookup_run_writes (fst job) (snd job) []).
  simpl. now rewrite String.eqb_refl.
Qed.

Lemma file_trace_files (job : string * list event) :
  Forall (fun a => file_of a = Some (fst job)) (file_trace job).
Proof.
  unfold file_trace. constructor; [reflexivity|].
  apply Forall_forall. intros a Ha. apply in_map_iff in Ha.
  destruct Ha as (ev & <- & _). reflexivity.
Qed.

(** Files written one after the other under different names hold, at the
    end, each what was written to it. *)
Lemma lookup_after_jobs (jobs : list (string * list event)) (st : store) :
  NoDup (map fst jobs) ->
  Forall (fun job => lookup (fst job) (run_store (flat_map file_trace jobs) st)
                     = Some (snd job)) jobs.
Proof.
  revert st. induction jobs as [|job rest IH]; intros st Hn; [constructor|].
  inversion Hn as [|? ? Hnot Hrest]; subst.
  change (flat_map file_trace (job :: rest))
    with (file_trace job ++ flat_map file_trace rest).
  constructor.
  - rewrite run_store_app, lookup_run_other; [apply lookup_file_trace|].
    apply Forall_forall. intros a Ha. apply in_flat_map in Ha.
    destruct Ha as (job' & Hj & Ha).
    pose proof (file_trace_files job') as Hf. rewrite Forall_forall in Hf.
    rewrite (Hf a Ha). intros E. injection E as E. apply Hnot. rewrite <- E.
    now apply in_map.
  - eapply Forall_impl; [|exact (IH (run_store (file_trace job) st) Hrest)].
    intros job' H. now rewrite run_store_app.
Qed.

Lemma read_back_stdout (jobs : list (string * list event)) (st : store) :
  NoDup (map fst jobs) ->
  Forall (fun job => lookup (fst job) st = Some (snd job)) jobs ->
  stdout (TempFile.read_back (map fst jobs) st) = flat_map snd jobs.
Proof.
  revert st. induction jobs as [|job rest IH]; intros st Hn Hl; [reflexivity|].
  inversion Hn as [|? ? Hnot Hrest]; subst.
  inversion Hl as [|? ? Hjob Hothers]; subst.
  simpl. rewrite Hjob, stdout_app. simpl.
  rewrite (stdout_map_Out (fun ev : event => ev)), map_id. f_equal.
  apply IH; [exact Hrest|].
  rewrite Forall_forall in *. intros job' Hj. rewrite lookup_remove.
  destruct (String.eqb (fst job) (fst job')) eqn:E; [|auto].
  apply String.eqb_eq in E. exfalso. apply Hnot. rewrite E. now apply in_map.
Qed.

Lemma NoDup_temp_names (js : list (nat * string)) :
  NoDup (map fst js) -> NoDup (map (fun j => TempFile.temp_name (fst j)) js).
Proof.
  induction js as [|j js IH]; simpl; intros H; [constructor|].
  inversion H as [|? ? Hnot Hrest]; subst. constructor; [|auto].
  intros Hin. apply in_map_iff in Hin. destruct Hin as (j' & E & Hj').
  apply temp_name_inj in E. apply Hnot. rewrite <- E. now apply in_map.
Qed.

(** X15.  When every child could open its file and the pids differ, the parent
    of the variant with temporary files copies to stdout, child by child in
    the order of the targets, what the child of myfind.cpp for that target
    writes to stdout followed by what it writes to stderr. *)
Theorem tempfile_parent_copies_reports (fl : flags) (w : world)
    (can_open : string -> bool) (st : store) (searchPath : string) (root : node)
    (filenames : list string) :
  resolve w searchPath = Some root ->
  is_dir root = true ->
  (forall child target,
     In (child, target) (started (fork w) filenames 0) ->
     can_open (TempFile.temp_name child) = true) ->
  NoDup (map fst (started (fork w) filenames 0)) ->
  stdout (o_parent (TempFile.main fl w can_open st searchPath filenames)) =
  flat_map (fun j => report fl (mkProc (fst j) (cwd (parent w))) searchPath root (snd j))
           (started (fork w) filenames 0).
Proof.
  intros Hr Hroot Hopen Hnd.
  assert (Hd : is_directory w searchPath = Returns true)
    by (unfold is_directory; rewrite Hr; destruct root; try discriminate; reflexivity).
  destruct (tempfile_main_valid_root fl w can_open st searchPath filenames Hd)
    as (root' & Hr' & ->).
  assert (root' = root) by congruence. subst root'.
  destruct (tempfile_spawn_spec fl w can_open searchPath root filenames 0)
    as (Ht & He & Hw).
  cbv zeta. simpl.
  set (sp := TempFile.spawn fl w can_open searchPath root filenames 0) in *.
  set (js := started (fork w) filenames 0) in *.
  set (jobs := map (fun j => (TempFile.temp_name (fst j),
                              report fl (mkProc (fst j) (cwd (parent w)))
                                     searchPath root (snd j))) js).
  assert (Ej : map fst jobs = snd sp)
    by (subst jobs; rewrite Ht, map_map; reflexivity).
  assert (Ew : flat_map w_trace (snd (fst sp)) = flat_map file_trace jobs).
  { rewrite Hw. subst jobs. clear Ej Hnd Ht He Hw.
    induction js as [|[child target] js IH]; [reflexivity|].
    cbn [map flat_map w_trace fst snd].
    rewrite (Hopen child target) by now left.
    rewrite tempfile_task_trace. f_equal.
    apply IH. intros c t Hin. apply (Hopen c t). now right. }
  assert (Hn : NoDup (map fst jobs))
    by (rewrite Ej, Ht; now apply NoDup_temp_names).
  rewrite stdout_app, He, (stdout_map_Err StartFailure). simpl.
  rewrite <- Ej, Ew, read_back_stdout.
  - subst jobs. clear. induction js as [|j js IH]; simpl; congruence.
  - exact Hn.
  - now apply lookup_after_jobs.
Qed.

Lemma tempfile_parent_copies_reports_witness :
  stdout (o_parent (TempFile.main Sample.recursive_exact Sample.world_ok
                      (fun _ => true) [] "/root" ["a.txt"; "missing.txt"])) =
  [Found 100 "a.txt" "/root/a.txt"; Found 100 "a.txt" "/root/sub/a.txt";
   NotFound 101 "missing.txt" "/root"].
Proof.
  apply (tempfile_parent_copies_reports Sample.recursive_exact Sample.world_ok
           (fun _ => true) [] "/root" Sample.tree ["a.txt"; "missing.txt"]).
  - reflexivity.
  - reflexivity.
  - reflexivity.
  - simpl. repeat constructor; simpl; intuition discriminate.
Defined.

(** ** The variants write the same lines *)

Lemma guarded_scan_agrees (fl : flags) (self : proc) (filename : string)
    (items : list item) (found : bool) :
  let g := Guarded.scan fl self filename items found in
  let m := Myfind.scan fl self filename items found in
  stdout (fst (fst g)) = stdout (fst (fst m)) /\
  stderr (fst (fst g)) = [] /\ stderr (fst (fst m)) = [] /\
  snd (fst g) = snd (fst m) /\ snd g = snd m.
Proof.
  revert found. induction items as [|[e|what] items IH]; intros found; simpl;
    try (repeat split; reflexivity).
  destruct (isMatchingFilename (caseInsensetiveSearch fl) (e_name e) filename).
  - specialize (IH true). cbv zeta in IH.
    destruct (Guarded.scan fl self filename items true) as [[gt gf] ge].
    destruct (Myfind.scan fl self filename items true) as [[mt mf] me].
    simpl in *. destruct IH as (H1 & H2 & H3 & H4 & H5).
    repeat split; congruence.
  - apply IH.
Qed.

(** X16.  Taking the semaphore changes nothing in what is written: a task
    of the variant with the guarded writes puts on stdout and on stderr the
    very events the task of myfind.cpp puts there. *)
Theorem guarded_same_output
    (fl : flags) (self : proc) (directory : string) (root : node) (filename : string) :
  stdout (Guarded.searchForFile fl self directory root filename)
    = stdout (Myfind.searchForFile fl self directory root filename) /\
  stderr (Guarded.searchForFile fl self directory root filename)
    = stderr (Myfind.searchForFile fl self directory root filename).
Proof.
  unfold Guarded.searchForFile, Myfind.searchForFile.
  pose proof (guarded_scan_agrees fl self filename
                (walk (recursiveSearchEnabled fl) directory root) false) as H.
  cbv zeta in H.
  destruct (Guarded.scan fl self filename
              (walk (recursiveSearchEnabled fl) directory root) false)
    as [[gt gf] ge].
  destruct (Myfind.scan fl self filename
              (walk (recursiveSearchEnabled fl) directory root) false)
    as [[mt mf] me].
  simpl in H. destruct H as (H1 & H2 & H3 & <- & <-).
  destruct ge; [|destruct gf]; simpl;
    rewrite !stdout_app, !stderr_app, H1, H2, H3; split; reflexivity.
Qed.
